(** * dRowAudio [Pitch]: note names, MIDI notes and frequencies

    A shallow embedding of [dRowAudio/audio/dRowAudio_Pitch.h].

    - [int] values are [Z] with the 32-bit wrap-around written out ([Int]);
      [%] and [/] are C++'s, truncating toward zero ([Z.rem], [Z.quot]).
    - a [juce::String] is the list of its code points ([juce.String]); the
      few [juce::String] members the header calls are in [Module juce].
    - the C library's character classification ([towlower], [iswspace]),
      reached through [juce::CharacterFunctions], is an interface
      ([CharacterFunctions]) with the "C" locale as its instance.
    - [double] and the two conversions of [dRowAudio_AudioUtility.h] are
      interfaces too ([Double], [AudioUtility]); their instance over the
      real numbers is the exact arithmetic reading of the formulas. *)

From Stdlib Require Import ZArith List Bool Ascii String Lia Reals Lra.
From Stdlib Require Import Numbers.DecimalString.
From Stdlib Require Numbers.DecimalPos.
Import ListNotations.
Local Open Scope Z_scope.

(* ================================================================== *)
(** ** 32-bit [int] arithmetic *)

Module Int.

Definition min_signed : Z := - 2 ^ 31.
Definition modulus : Z := 2 ^ 32.

(** The value an [int] holds after a result left the representable range. *)
Definition wrap (z : Z) : Z := (z - min_signed) mod modulus + min_signed.

Definition add (a b : Z) : Z := wrap (a + b).
Definition sub (a b : Z) : Z := wrap (a - b).
Definition mul (a b : Z) : Z := wrap (a * b).
Definition neg (a : Z) : Z := wrap (- a).

(** [a % b] and [a / b]: the quotient is truncated toward zero and the
    remainder takes the sign of the dividend. *)
Definition rem (a b : Z) : Z := Z.rem a b.
Definition div (a b : Z) : Z := wrap (Z.quot a b).

End Int.

(* ================================================================== *)
(** ** The character functions of the C library *)

Definition juce_wchar : Type := Z.

(** A character literal ['c']. *)
Definition ch (a : ascii) : juce_wchar := Z.of_N (N_of_ascii a).

(** [juce::CharacterFunctions::toLowerCase (juce_wchar)] is [towlower] and
    [juce::CharacterFunctions::isWhitespace (juce_wchar)] is [iswspace]:
    both belong to the C library and depend on its locale. *)
Class CharacterFunctions : Type := {
  toLowerCaseChar : juce_wchar -> juce_wchar;
  isWhitespace : juce_wchar -> bool
}.

(* ================================================================== *)
(** ** The part of [juce::String] the header uses *)

Module juce.

Definition String : Type := list juce_wchar.

(** [String (const char* )]: a literal of ASCII characters. *)
Definition fromAscii (s : string) : String := map ch (list_ascii_of_string s).

(** [String::empty]. *)
Definition empty : String := [].

(** [String::length()]. *)
Definition length (s : String) : Z := Z.of_nat (List.length s).

(** [String::operator[] (int)]: the character at [index]; at the end of the
    text it reads the terminating null. *)
Definition charAt (s : String) (index : nat) : juce_wchar := nth index s 0.

(** [charactersToRetain.text.indexOf (c) >= 0]. *)
Definition containsChar (set : String) (c : juce_wchar) : bool :=
  existsb (Z.eqb c) set.

(** [String::retainCharacters (charactersToRetain)]: the characters of the
    text that occur in [charactersToRetain], in their order. *)
Definition retainCharacters (s charactersToRetain : String) : String :=
  filter (containsChar charactersToRetain) s.

(** [String::toLowerCase()]: every character through
    [CharacterFunctions::toLowerCase]. *)
Definition toLowerCase `{CharacterFunctions} (s : String) : String :=
  map toLowerCaseChar s.

(** [String& operator<< (String&, const String&)] and
    [String& operator<< (String&, juce_wchar)]. *)
Definition append (s t : String) : String := s ++ t.
Definition appendChar (s : String) (c : juce_wchar) : String := s ++ [c].

(** [String& operator<< (String&, int)]: appends the number in decimal,
    with a leading minus sign when it is negative. *)
Definition appendInt (s : String) (number : Z) : String :=
  s ++ fromAscii (NilZero.string_of_int (Z.to_int number)).

(** [CharPointerType::findEndOfWhitespace()]. *)
Fixpoint findEndOfWhitespace `{CharacterFunctions} (s : String) : String :=
  match s with
  | c :: s' => if isWhitespace c then findEndOfWhitespace s' else s
  | [] => []
  end.

(** The loop of [CharacterFunctions::getIntValue <int>]:
    [v = v * 10 + (c - '0')] while [c] is a decimal digit. *)
Fixpoint getIntValueLoop (v : Z) (s : String) : Z :=
  match s with
  | c :: s' =>
      if (ch "0" <=? c) && (c <=? ch "9")
      then getIntValueLoop (Int.add (Int.mul v 10) (c - ch "0")) s'
      else v
  | [] => v
  end.

(** [String::getIntValue()]: leading white space, an optional minus sign,
    then decimal digits up to the first other character. *)
Definition getIntValue `{CharacterFunctions} (s : String) : Z :=
  match findEndOfWhitespace s with
  | c :: s' =>
      if c =? ch "-" then Int.neg (getIntValueLoop 0 s')
      else getIntValueLoop 0 (c :: s')
  | [] => 0
  end.

(** [*CharPointer_UTF8 (data)]: the code point that the UTF-8 bytes at
    [data] start with. *)
Fixpoint utf8Lead (fuel : nat) (n mask bit numExtraValues : Z) : Z * Z :=
  match fuel with
  | O => (mask, numExtraValues)
  | S fuel' =>
      if negb (Z.land n bit =? 0) && (16 <? bit)
      then utf8Lead fuel' n (Z.shiftr mask 1) (Z.shiftr bit 1) (numExtraValues + 1)
      else (mask, numExtraValues)
  end.

Fixpoint utf8Extra (numExtraValues : nat) (n : Z) (data : list Z) : Z :=
  match numExtraValues, data with
  | S k, nextByte :: data' =>
      if negb (Z.land nextByte 192 =? 128) then n
      else utf8Extra k (Z.lor (Z.shiftl n 6) (Z.land nextByte 63)) data'
  | _, _ => n
  end.

Definition CharPointer_UTF8_deref (data : list Z) : juce_wchar :=
  match data with
  | [] => 0
  | byte :: rest =>
      if byte <? 128 then byte
      else
        let '(mask, numExtraValues) := utf8Lead 7 byte 127 64 0 in
        utf8Extra (Z.to_nat numExtraValues) (Z.land byte mask) rest
  end.

End juce.

(** The "C" locale: [towlower] maps ['A'..'Z'] to ['a'..'z'] and leaves
    every other character alone; [iswspace] holds of the space and of the
    control characters [\t \n \v \f \r]. *)
Definition C_towlower (c : juce_wchar) : juce_wchar :=
  if (ch "A" <=? c) && (c <=? ch "Z") then c + 32 else c.

Definition C_iswspace (c : juce_wchar) : bool :=
  (c =? 32) || ((9 <=? c) && (c <=? 13)).

Definition CLocale : CharacterFunctions :=
  {| toLowerCaseChar := C_towlower; isWhitespace := C_iswspace |}.

(* ================================================================== *)
(** ** [double] and the audio utility *)

(** What the header does with a [double]: the literal [0.0], the
    conversion [(double) i] of an [int] and the conversion [(int) x], which
    drops the fractional part. *)
Class Double : Type := {
  double : Type;
  zero : double;
  ofInt : Z -> double;
  toInt : double -> Z
}.

(** [midiToFrequency] and [frequencyToMidi] of [dRowAudio_AudioUtility.h]. *)
Class AudioUtility (D : Double) : Type := {
  midiToFrequency : double -> double;
  frequencyToMidi : double -> double
}.

(* ================================================================== *)
(** ** [class Pitch] *)

Section PitchClass.

Context {CF : CharacterFunctions} {D : Double} {AU : AudioUtility D}.

Record Pitch : Type := mkPitch { frequency : double }.

(** [Pitch()] and [Pitch (double frequencyHz)]. *)
Definition Pitch_default : Pitch := mkPitch zero.
Definition Pitch_ofFrequency (frequencyHz : double) : Pitch := mkPitch frequencyHz.

(** [pitch.frequency = value]. *)
Definition set_frequency (pitch : Pitch) (value : double) : Pitch :=
  mkPitch value.

Definition getSharpSymbol : juce_wchar := juce.CharPointer_UTF8_deref [226; 153; 175].

Definition getFlatSymbol : juce_wchar := juce.CharPointer_UTF8_deref [226; 153; 173].

(** [fromFrequency <double>]: the cast [(double) frequencyHz] is the
    identity at this instance of the template. *)
Definition fromFrequency (frequencyHz : double) : Pitch :=
  let pitch := Pitch_default in
  set_frequency pitch frequencyHz.

(** [fromMidiNote <Type>], its argument already converted by
    [(double) midiNote]. *)
Definition fromMidiNote (midiNote : double) : Pitch :=
  let pitch := Pitch_default in
  set_frequency pitch (midiToFrequency midiNote).

Definition getFrequencyHz (p : Pitch) : double := frequency p.

Definition getMidiNote (p : Pitch) : double := frequencyToMidi (frequency p).

Definition getNoteName (pitchClass : Z) : juce.String :=
  match pitchClass with
  | 0 => juce.fromAscii "C"
  | 1 => juce.fromAscii "C#"
  | 2 => juce.fromAscii "D"
  | 3 => juce.fromAscii "D#"
  | 4 => juce.fromAscii "E"
  | 5 => juce.fromAscii "F"
  | 6 => juce.fromAscii "F#"
  | 7 => juce.fromAscii "G"
  | 8 => juce.fromAscii "G#"
  | 9 => juce.fromAscii "A"
  | 10 => juce.fromAscii "A#"
  | 11 => juce.fromAscii "B"
  | _ => juce.empty
  end.

Definition getMidiNoteName (p : Pitch) : juce.String :=
  let midiNote := toInt (getMidiNote p) in
  let pitchClass := Int.rem midiNote 12 in
  let octave := Int.sub (Int.div midiNote 12) 1 in
  let noteName := juce.empty in
  juce.appendInt (juce.append noteName (getNoteName pitchClass)) octave.

(** The [switch (base)] of [getPitchClass]. *)
Definition basePitchClass (base : juce_wchar) : Z :=
  if base =? ch "c" then 0
  else if base =? ch "d" then 2
  else if base =? ch "e" then 4
  else if base =? ch "f" then 5
  else if base =? ch "g" then 7
  else if base =? ch "a" then 9
  else if base =? ch "b" then 11
  else -1.

Definition getPitchClass (pitchClassName : juce.String) : Z :=
  let pitchClass := -1 in
  let numChars := juce.length pitchClassName in
  let pitchClass :=
    if 0 <? numChars
    then basePitchClass (juce.charAt (juce.toLowerCase pitchClassName) 0)
    else pitchClass in
  if 1 <? numChars then
    let sharpOrFlat := juce.charAt pitchClassName 1 in
    let pitchClass :=
      if sharpOrFlat =? ch "#" then Int.add pitchClass 1
      else if sharpOrFlat =? ch "b" then Int.sub pitchClass 1
      else pitchClass in
    let pitchClass :=
      if sharpOrFlat =? getSharpSymbol then Int.add pitchClass 1
      else if sharpOrFlat =? getFlatSymbol then Int.sub pitchClass 1
      else pitchClass in
    Int.rem pitchClass 12
  else pitchClass.

Definition getValidPitchClassLetters : juce.String :=
  let chars := juce.fromAscii "abcdefg#b" in
  juce.appendChar (juce.appendChar chars getSharpSymbol) getFlatSymbol.

(** The two strings [fromNoteName] cuts out of its argument, and the two
    numbers it reads from them. *)
Definition octaveNameOf (noteName : juce.String) : juce.String :=
  juce.retainCharacters noteName (juce.fromAscii "0123456789").

Definition pitchClassNameOf (noteName : juce.String) : juce.String :=
  juce.retainCharacters (juce.toLowerCase noteName) getValidPitchClassLetters.

Definition octaveOf (noteName : juce.String) : Z :=
  juce.getIntValue (octaveNameOf noteName).

Definition pitchClassOf (noteName : juce.String) : Z :=
  getPitchClass (pitchClassNameOf noteName).

Definition fromNoteName (noteName : juce.String) : Pitch :=
  let octaveName := octaveNameOf noteName in
  let pitchClassName := pitchClassNameOf noteName in
  let octave := juce.getIntValue octaveName in
  let pitchClass := getPitchClass pitchClassName in
  let midiNote := Int.add (Int.mul octave 12) pitchClass in
  if 0 <? pitchClass
  then fromMidiNote (ofInt midiNote)
  else Pitch_ofFrequency zero.

End PitchClass.

Arguments Pitch {D}.
Arguments mkPitch {D} frequency.

(* ================================================================== *)
(** ** Exact arithmetic *)

(** [(int) x] over the reals: the integer part, toward zero. *)
Definition Rtruncate (x : R) : Z :=
  if Rle_dec 0 x then Int_part x else - Int_part (- x).

Definition RDouble : Double :=
  {| double := R; zero := 0%R; ofInt := IZR; toInt := Rtruncate |}.

(** Modelled from the spec: the two conversions of
    [dRowAudio_AudioUtility.h], which the header includes and which is not
    among the sources: [hz = 440 * 2^((m - 69) / 12)] and
    [m = 69 + 12 * log2 (hz / 440)], read over the real numbers.
    ([ln] is 0 below 0 here, so nothing is stated of [frequencyToMidi] at a
    frequency that is not positive.) *)
Definition R_midiToFrequency (midiNoteNumber : R) : R :=
  (440 * Rpower 2 ((midiNoteNumber - 69) / 12))%R.

Definition R_frequencyToMidi (frequency : R) : R :=
  (69 + 12 * (ln (frequency / 440) / ln 2))%R.

Definition RAudioUtility : AudioUtility RDouble :=
  {| midiToFrequency := R_midiToFrequency : @double RDouble -> @double RDouble;
     frequencyToMidi := R_frequencyToMidi : @double RDouble -> @double RDouble |}.

(** A note name written in ASCII. *)
Definition note (s : string) : juce.String := juce.fromAscii s.

(* ================================================================== *)
(** ** Padding a note name *)

Section Padding.

Context {CF : CharacterFunctions}.

(** A character that neither [retainCharacters] call of [fromNoteName]
    keeps: it is no decimal digit, and its lower case is none of the
    pitch class letters. *)
Definition isDiscarded (c : juce_wchar) : bool :=
  negb (juce.containsChar (juce.fromAscii "0123456789") c) &&
  negb (juce.containsChar getValidPitchClassLetters (toLowerCaseChar c)).

(** [Padded N N']: [N'] is [N] with discarded characters inserted, at any
    positions and in any number. *)
Inductive Padded : juce.String -> juce.String -> Prop :=
| Padded_nil : Padded [] []
| Padded_keep (c : juce_wchar) (N N' : juce.String) :
    Padded N N' -> Padded (c :: N) (c :: N')
| Padded_insert (c : juce_wchar) (N N' : juce.String) :
    isDiscarded c = true -> Padded N N' -> Padded N (c :: N').

End Padding.

(* ================================================================== *)
(** ** From a MIDI note to its name and back *)

(** The string [getMidiNoteName] builds once the MIDI note is an [int]. *)
Definition nameOfMidiInt (midiNote : Z) : juce.String :=
  let pitchClass := Int.rem midiNote 12 in
  let octave := Int.sub (Int.div midiNote 12) 1 in
  juce.appendInt (juce.append juce.empty (getNoteName pitchClass)) octave.

(** The [int] that [fromNoteName] hands to [fromMidiNote]. *)
Definition midiNoteOf `{CharacterFunctions} (noteName : juce.String) : Z :=
  Int.add (Int.mul (octaveOf noteName) 12) (pitchClassOf noteName).

(** What [fromNoteName] reads in the name of MIDI note [m]: the pitch class
    of [m], and a MIDI note one octave off. *)
Definition readsBack (m : Z) : bool :=
  (@pitchClassOf CLocale (nameOfMidiInt m) =? Z.rem m 12) &&
  (@midiNoteOf CLocale (nameOfMidiInt m) =? (if m <? 12 then m + 12 else m - 12)).

(* ================================================================== *)
(** ** Decimal numerals *)

(** The number a run of decimal digits stands for when read from the left
    with [v] already read: the loop [v = v * 10 + digit] with no bound on
    the integers. *)
Fixpoint decimalValue (v : Z) (d : Decimal.uint) : Z :=
  match d with
  | Decimal.Nil => v
  | Decimal.D0 l => decimalValue (v * 10 + 0) l
  | Decimal.D1 l => decimalValue (v * 10 + 1) l
  | Decimal.D2 l => decimalValue (v * 10 + 2) l
  | Decimal.D3 l => decimalValue (v * 10 + 3) l
  | Decimal.D4 l => decimalValue (v * 10 + 4) l
  | Decimal.D5 l => decimalValue (v * 10 + 5) l
  | Decimal.D6 l => decimalValue (v * 10 + 6) l
  | Decimal.D7 l => decimalValue (v * 10 + 7) l
  | Decimal.D8 l => decimalValue (v * 10 + 8) l
  | Decimal.D9 l => decimalValue (v * 10 + 9) l
  end.

(** The characters [getMidiNoteName] can write, and the decimal digits. *)
Definition nameAlphabet : juce.String := juce.fromAscii "ABCDEFG#-0123456789".

Definition decimalDigits : juce.String := juce.fromAscii "0123456789".

(* ================================================================== *)
(** ** Facts of exact arithmetic *)

Lemma Rpower_2_pos (y : R) : (0 < Rpower 2 y)%R.
Proof. unfold Rpower. apply exp_pos. Qed.

Lemma R_midiToFrequency_pos (m : R) : (0 < R_midiToFrequency m)%R.
Proof.
  unfold R_midiToFrequency.
  apply Rmult_lt_0_compat; [lra | apply Rpower_2_pos].
Qed.

Lemma ln_2_neq_0 : ln 2 <> 0%R.
Proof.
  assert (0 < ln 2)%R; [| lra].
  rewrite <- ln_1. apply ln_increasing; lra.
Qed.

(** The two conversions are inverse to each other on MIDI notes. *)
Lemma R_frequencyToMidi_midiToFrequency (m : R) :
  R_frequencyToMidi (R_midiToFrequency m) = m.
Proof.
  unfold R_frequencyToMidi, R_midiToFrequency.
  replace (440 * Rpower 2 ((m - 69) / 12) / 440)%R
    with (Rpower 2 ((m - 69) / 12)) by (field; lra).
  rewrite ln_Rpower.
  pose proof ln_2_neq_0.
  field. assumption.
Qed.

Lemma Rpower_2_opp_nat (n : nat) : Rpower 2 (- INR n) = (/ 2 ^ n)%R.
Proof.
  rewrite Rpower_Ropp, Rpower_pow by lra. reflexivity.
Qed.

Lemma Rtruncate_IZR (z : Z) : Rtruncate (IZR z) = z.
Proof.
  unfold Rtruncate.
  destruct (Rle_dec 0 (IZR z)) as [_ | _].
  - symmetry. apply Int_part_spec. lra.
  - rewrite <- opp_IZR.
    rewrite <- (Int_part_spec (IZR (- z)) (- z)) by lra.
    lia.
Qed.

(* ================================================================== *)
(** ** [int] results that stay in range *)

Lemma Int_wrap_small (z : Z) :
  - 2 ^ 31 <= z < 2 ^ 31 -> Int.wrap z = z.
Proof.
  intros Hz. unfold Int.wrap, Int.min_signed, Int.modulus.
  rewrite Z.mod_small; lia.
Qed.

(* ================================================================== *)
(** ** The factories and the accessors *)

Section Factories.

Context {CF : CharacterFunctions} {D : Double} {AU : AudioUtility D}.

(** [fromNoteName] is a two-way branch on the parsed pitch class. *)
Lemma fromNoteName_unfold (noteName : juce.String) :
  fromNoteName noteName =
  if 0 <? pitchClassOf noteName
  then fromMidiNote
         (ofInt (Int.add (Int.mul (octaveOf noteName) 12) (pitchClassOf noteName)))
  else Pitch_ofFrequency zero.
Proof. reflexivity. Qed.

Lemma fromNoteName_rejected (noteName : juce.String) :
  pitchClassOf noteName <= 0 -> fromNoteName noteName = Pitch_ofFrequency zero.
Proof.
  intros Hpc. rewrite fromNoteName_unfold.
  destruct (Z.ltb_spec 0 (pitchClassOf noteName)); [lia | reflexivity].
Qed.

Lemma fromNoteName_accepted (noteName : juce.String) :
  0 < pitchClassOf noteName ->
  fromNoteName noteName =
  fromMidiNote
    (ofInt (Int.add (Int.mul (octaveOf noteName) 12) (pitchClassOf noteName))).
Proof.
  intros Hpc. rewrite fromNoteName_unfold.
  destruct (Z.ltb_spec 0 (pitchClassOf noteName)); [reflexivity | lia].
Qed.

(** C3. Sentinel rule: when the parsed pitch class is at most 0 (no base
    letter, or a C natural such as "C4", whose pitch class is 0),
    [fromNoteName] returns the pitch of frequency exactly 0; when it is
    positive, [fromNoteName] returns [fromMidiNote (octave * 12 + pitchClass)],
    the sum being the [int] the source computes (the plain integer sum
    whenever neither the product nor the sum leaves the range of [int]). *)
Theorem fromNoteName_sentinel_rule (noteName : juce.String) :
  (pitchClassOf noteName <= 0 ->
     fromNoteName noteName = Pitch_ofFrequency zero /\
     getFrequencyHz (fromNoteName noteName) = zero) /\
  (0 < pitchClassOf noteName ->
     fromNoteName noteName =
     fromMidiNote
       (ofInt (Int.add (Int.mul (octaveOf noteName) 12) (pitchClassOf noteName)))) /\
  (- 2 ^ 31 <= octaveOf noteName * 12 < 2 ^ 31 ->
   - 2 ^ 31 <= octaveOf noteName * 12 + pitchClassOf noteName < 2 ^ 31 ->
     Int.add (Int.mul (octaveOf noteName) 12) (pitchClassOf noteName) =
     octaveOf noteName * 12 + pitchClassOf noteName) /\
  (@pitchClassOf CLocale (note "C4") = 0 /\
   @fromNoteName CLocale D AU (note "C4") = Pitch_ofFrequency zero).
Proof.
  split; [| split; [| split]].
  - intros Hpc. rewrite (fromNoteName_rejected _ Hpc). split; reflexivity.
  - apply fromNoteName_accepted.
  - intros Hmul Hadd. unfold Int.add, Int.mul.
    rewrite (Int_wrap_small _ Hmul). apply Int_wrap_small. exact Hadd.
  - split; reflexivity.
Qed.

(** C6. Frequency round trip: [fromFrequency] stores its argument as it is
    and [getFrequencyHz] returns the stored value as it is, so for every
    [hz] (positive, zero or negative: nothing is validated) the value read
    back is [hz] itself. *)
Theorem fromFrequency_getFrequencyHz (hz : double) :
  getFrequencyHz (fromFrequency hz) = hz.
Proof. unfold fromFrequency, set_frequency, getFrequencyHz. reflexivity. Qed.

(** C8. The formatter below MIDI note 0, evaluated: when the truncated
    MIDI note of a pitch is negative and no multiple of 12, the pitch class
    [midiNote % 12] is negative too (it is not brought into 0..11),
    [getNoteName] gives the empty string for it, and the name is the number
    of the octave alone, with no letter before it. *)
Theorem getMidiNoteName_below_midi_0 (p : Pitch) :
  toInt (getMidiNote p) < 0 ->
  Int.rem (toInt (getMidiNote p)) 12 <> 0 ->
  Int.rem (toInt (getMidiNote p)) 12 < 0 /\
  getNoteName (Int.rem (toInt (getMidiNote p)) 12) = juce.empty /\
  getMidiNoteName p =
  juce.appendInt juce.empty (Int.sub (Int.div (toInt (getMidiNote p)) 12) 1).
Proof.
  intros Hneg Hrem.
  assert (Hpc : Int.rem (toInt (getMidiNote p)) 12 < 0).
  { unfold Int.rem in *.
    assert (Hle : Z.rem (toInt (getMidiNote p)) 12 <= 0)
      by (apply Z.rem_nonpos; [discriminate | apply Z.lt_le_incl; exact Hneg]).
    apply Z.le_neq. split; assumption. }
  assert (Hname : getNoteName (Int.rem (toInt (getMidiNote p)) 12) = juce.empty).
  { revert Hpc. generalize (Int.rem (toInt (getMidiNote p)) 12).
    intros pitchClass Hpc. destruct pitchClass; [lia | lia | reflexivity]. }
  split; [exact Hpc |]. split; [exact Hname |].
  unfold getMidiNoteName. cbv zeta. rewrite Hname. reflexivity.
Qed.

End Factories.

Lemma fromNoteName_sentinel_rule_witness :
  @pitchClassOf CLocale (note "C#4") = 1 /\
  @fromNoteName CLocale RDouble RAudioUtility (note "C#4") = @fromMidiNote RDouble RAudioUtility (IZR 49) /\
  @pitchClassOf CLocale (note "4") = -1 /\
  @getFrequencyHz RDouble (@fromNoteName CLocale RDouble RAudioUtility (note "4")) = 0%R.
Proof.
  split; [reflexivity |].
  split.
  - destruct (@fromNoteName_sentinel_rule CLocale RDouble RAudioUtility (note "C#4"))
      as [_ [Hpos _]].
    rewrite Hpos; reflexivity.
  - split; [reflexivity |].
    destruct (@fromNoteName_sentinel_rule CLocale RDouble RAudioUtility (note "4"))
      as [Hneg _].
    apply Hneg. vm_compute. discriminate.
Defined.
(* ================================================================== *)
(** ** What the parser does not look at *)

Section ParserTolerance.

Context {CF : CharacterFunctions} {D : Double} {AU : AudioUtility D}.

Lemma isDiscarded_digit (c : juce_wchar) :
  isDiscarded c = true ->
  juce.containsChar (juce.fromAscii "0123456789") c = false.
Proof.
  unfold isDiscarded. intros H.
  apply andb_true_iff in H. destruct H as [H _].
  now apply negb_true_iff in H.
Qed.

Lemma isDiscarded_letter (c : juce_wchar) :
  isDiscarded c = true ->
  juce.containsChar getValidPitchClassLetters (toLowerCaseChar c) = false.
Proof.
  unfold isDiscarded. intros H.
  apply andb_true_iff in H. destruct H as [_ H].
  now apply negb_true_iff in H.
Qed.

Lemma Padded_octaveNameOf (N N' : juce.String) :
  Padded N N' -> octaveNameOf N' = octaveNameOf N.
Proof.
  unfold octaveNameOf, juce.retainCharacters.
  induction 1 as [| c N N' _ IH | c N N' Hc _ IH]; cbn [filter map].
  - reflexivity.
  - rewrite IH. reflexivity.
  - rewrite (isDiscarded_digit c Hc). exact IH.
Qed.

Lemma Padded_pitchClassNameOf (N N' : juce.String) :
  Padded N N' -> pitchClassNameOf N' = pitchClassNameOf N.
Proof.
  unfold pitchClassNameOf, juce.retainCharacters, juce.toLowerCase.
  induction 1 as [| c N N' _ IH | c N N' Hc _ IH]; cbn [filter map].
  - reflexivity.
  - rewrite IH. reflexivity.
  - rewrite (isDiscarded_letter c Hc). exact IH.
Qed.

(** C7. Parser tolerance: when [N'] is obtained from a note name [N] by
    inserting, anywhere, characters that are no ASCII digits and whose
    lower case is none of [a..g], [#], [b], the sharp sign and the flat sign,
    [fromNoteName N'] is the pitch [fromNoteName N]. (It holds of every [N],
    the valid note names among them.) *)
Theorem fromNoteName_padded (N N' : juce.String) :
  Padded N N' -> fromNoteName N' = fromNoteName N.
Proof.
  intros HP. unfold fromNoteName.
  rewrite (Padded_octaveNameOf N N' HP), (Padded_pitchClassNameOf N N' HP).
  reflexivity.
Qed.

End ParserTolerance.

Lemma fromNoteName_padded_witness :
  @Padded CLocale (note "A4") (note " A-4!") /\
  @fromNoteName CLocale RDouble RAudioUtility (note " A-4!") =
  @fromNoteName CLocale RDouble RAudioUtility (note "A4").
Proof.
  assert (HP : @Padded CLocale (note "A4") (note " A-4!")).
  { unfold note, juce.fromAscii; simpl.
    apply Padded_insert; [reflexivity |].
    apply Padded_keep.
    apply Padded_insert; [reflexivity |].
    apply Padded_keep.
    apply Padded_insert; [reflexivity |].
    apply Padded_nil. }
  split; [exact HP |].
  exact (@fromNoteName_padded CLocale RDouble RAudioUtility _ _ HP).
Defined.

(* ================================================================== *)
(** ** Upper and lower case *)

Section CaseInsensitive.

Context {CF : CharacterFunctions} {D : Double} {AU : AudioUtility D}.

(** What the statement needs of [towlower]: lowering twice is lowering once,
    decimal digits are neither changed nor produced, and the capital ASCII
    letters go to their small letters. *)
Hypothesis lower_idempotent :
  forall c, toLowerCaseChar (toLowerCaseChar c) = toLowerCaseChar c.
Hypothesis lower_digit_fixed :
  forall c, juce.containsChar (juce.fromAscii "0123456789") c = true ->
            toLowerCaseChar c = c.
Hypothesis lower_digit_origin :
  forall c, juce.containsChar (juce.fromAscii "0123456789") (toLowerCaseChar c) = true ->
            juce.containsChar (juce.fromAscii "0123456789") c = true.
Hypothesis lower_capital :
  forall c, ch "A" <= c <= ch "Z" -> toLowerCaseChar c = c + 32.

Lemma toLowerCase_idempotent (s : juce.String) :
  juce.toLowerCase (juce.toLowerCase s) = juce.toLowerCase s.
Proof.
  unfold juce.toLowerCase. rewrite map_map.
  apply map_ext. exact lower_idempotent.
Qed.

Lemma octaveNameOf_toLowerCase (s : juce.String) :
  octaveNameOf (juce.toLowerCase s) = octaveNameOf s.
Proof.
  unfold octaveNameOf, juce.retainCharacters, juce.toLowerCase.
  induction s as [| c s IH]; cbn [filter map]; [reflexivity |].
  destruct (juce.containsChar (juce.fromAscii "0123456789") (toLowerCaseChar c))
    eqn:Hlow.
  - rewrite (lower_digit_origin c Hlow).
    rewrite (lower_digit_fixed c (lower_digit_origin c Hlow)), IH. reflexivity.
  - destruct (juce.containsChar (juce.fromAscii "0123456789") c) eqn:Hc.
    + rewrite (lower_digit_fixed c Hc) in Hlow. congruence.
    + exact IH.
Qed.

Lemma pitchClassNameOf_toLowerCase (s : juce.String) :
  pitchClassNameOf (juce.toLowerCase s) = pitchClassNameOf s.
Proof.
  unfold pitchClassNameOf. rewrite toLowerCase_idempotent. reflexivity.
Qed.

Lemma fromNoteName_toLowerCase (s : juce.String) :
  fromNoteName s = fromNoteName (juce.toLowerCase s).
Proof.
  unfold fromNoteName.
  rewrite octaveNameOf_toLowerCase, pitchClassNameOf_toLowerCase. reflexivity.
Qed.

Lemma toLowerCase_AB3 :
  juce.toLowerCase (note "AB3") = juce.toLowerCase (note "Ab3").
Proof.
  unfold juce.toLowerCase, note, juce.fromAscii. simpl.
  f_equal. f_equal.
  rewrite <- (lower_idempotent (ch "B")).
  rewrite (lower_capital (ch "B")) by (vm_compute; split; discriminate).
  reflexivity.
Qed.

(** C10. [fromNoteName] does not tell upper case from lower case: for every
    string [s] it returns the pitch it returns for the lower case of [s].
    In particular a capital B after the base letter is a flat:
    [fromNoteName "AB3"] is [fromNoteName "Ab3"]. *)
Theorem fromNoteName_case_insensitive :
  (forall s : juce.String, fromNoteName s = fromNoteName (juce.toLowerCase s)) /\
  fromNoteName (note "AB3") = fromNoteName (note "Ab3").
Proof.
  split.
  - exact fromNoteName_toLowerCase.
  - rewrite (fromNoteName_toLowerCase (note "AB3")).
    rewrite (fromNoteName_toLowerCase (note "Ab3")).
    rewrite toLowerCase_AB3. reflexivity.
Qed.

End CaseInsensitive.

Lemma containsChar_digits (c : juce_wchar) :
  juce.containsChar (juce.fromAscii "0123456789") c = true <-> ch "0" <= c <= ch "9".
Proof.
  unfold juce.containsChar, juce.fromAscii, ch. cbn.
  rewrite !orb_true_iff, !Z.eqb_eq. lia.
Qed.

Lemma C_towlower_capital (c : juce_wchar) :
  ch "A" <= c <= ch "Z" -> C_towlower c = c + 32.
Proof.
  unfold C_towlower. intros [HA HZ].
  apply Z.leb_le in HA, HZ. rewrite HA, HZ. reflexivity.
Qed.

Lemma C_towlower_other (c : juce_wchar) :
  ~ ch "A" <= c <= ch "Z" -> C_towlower c = c.
Proof.
  unfold C_towlower. intros Hc.
  destruct (Z.leb_spec (ch "A") c) as [HA | HA]; [| reflexivity].
  destruct (Z.leb_spec c (ch "Z")) as [HZ | HZ]; [| reflexivity].
  tauto.
Qed.

Lemma C_towlower_idempotent (c : juce_wchar) :
  C_towlower (C_towlower c) = C_towlower c.
Proof.
  apply C_towlower_other.
  destruct (Z.le_gt_cases (ch "A") c) as [HA | HA];
    [destruct (Z.le_gt_cases c (ch "Z")) as [HZ | HZ] |].
  - rewrite C_towlower_capital by (split; assumption).
    unfold ch in *. cbn in *. lia.
  - rewrite C_towlower_other by lia. lia.
  - rewrite C_towlower_other by lia. lia.
Qed.

Lemma fromNoteName_case_insensitive_witness :
  (forall s : juce.String,
     @fromNoteName CLocale RDouble RAudioUtility s =
     @fromNoteName CLocale RDouble RAudioUtility (@juce.toLowerCase CLocale s)) /\
  @fromNoteName CLocale RDouble RAudioUtility (note "AB3") =
  @fromNoteName CLocale RDouble RAudioUtility (note "Ab3").
Proof.
  apply (@fromNoteName_case_insensitive CLocale RDouble RAudioUtility).
  - exact C_towlower_idempotent.
  - intros c Hc. apply containsChar_digits in Hc.
    apply C_towlower_other. unfold ch in *. cbn in *. lia.
  - intros c Hc. apply containsChar_digits in Hc. apply containsChar_digits.
    cbn [toLowerCaseChar CLocale] in Hc.
    destruct (Z.le_gt_cases (ch "A") c) as [HA | HA];
      [destruct (Z.le_gt_cases c (ch "Z")) as [HZ | HZ] |].
    + rewrite C_towlower_capital in Hc by (split; assumption).
      unfold ch in *. cbn in *. lia.
    + rewrite C_towlower_other in Hc by lia. exact Hc.
    + rewrite C_towlower_other in Hc by lia. exact Hc.
  - exact C_towlower_capital.
Defined.

(* ================================================================== *)
(** ** Note names in the "C" locale *)

Section NoteNames.

Context {D : Double} {AU : AudioUtility D}.

#[local] Existing Instance CLocale.

Lemma getSharpSymbol_code : getSharpSymbol = 9839.
Proof. reflexivity. Qed.

Lemma getFlatSymbol_code : getFlatSymbol = 9837.
Proof. reflexivity. Qed.

Lemma fromNoteName_A4 : fromNoteName (note "A4") = fromMidiNote (ofInt 57).
Proof. reflexivity. Qed.

Lemma fromNoteName_Asharp3 : fromNoteName (note "A#3") = fromMidiNote (ofInt 46).
Proof. reflexivity. Qed.

Lemma fromNoteName_Bflat3 : fromNoteName (note "Bb3") = fromMidiNote (ofInt 46).
Proof. reflexivity. Qed.

Lemma fromNoteName_Asharp3_unicode :
  fromNoteName (note "A" ++ getSharpSymbol :: note "3") = fromMidiNote (ofInt 46).
Proof. reflexivity. Qed.

Lemma pitchClassNameOf_not_a_note : pitchClassNameOf (note "not a note") = note "ae".
Proof. reflexivity. Qed.

Lemma fromNoteName_not_a_note :
  fromNoteName (note "not a note") = fromMidiNote (ofInt 9).
Proof. reflexivity. Qed.

Lemma fromNoteName_zz : fromNoteName (note "zz") = Pitch_ofFrequency zero.
Proof. reflexivity. Qed.

Lemma getMidiNoteName_nameOfMidiInt (p : Pitch) :
  getMidiNoteName p = nameOfMidiInt (toInt (getMidiNote p)).
Proof. reflexivity. Qed.

Lemma fromNoteName_midiNoteOf (noteName : juce.String) :
  fromNoteName noteName =
  if 0 <? pitchClassOf noteName
  then fromMidiNote (ofInt (midiNoteOf noteName))
  else Pitch_ofFrequency zero.
Proof. reflexivity. Qed.

Lemma readsBack_table :
  forallb readsBack (map Z.of_nat (seq 1 127)) = true.
Proof. vm_compute. reflexivity. Qed.

Lemma readsBack_midi (m : Z) : 1 <= m <= 127 -> readsBack m = true.
Proof.
  intros Hm.
  pose proof readsBack_table as Htable.
  rewrite forallb_forall in Htable. apply Htable.
  apply in_map_iff. exists (Z.to_nat m). split; [lia |].
  apply in_seq. lia.
Qed.

End NoteNames.

(* ================================================================== *)
(** ** Pitches in exact arithmetic *)

Section ExactArithmetic.

#[local] Existing Instance CLocale.
#[local] Existing Instance RDouble.
#[local] Existing Instance RAudioUtility.

Lemma getFrequencyHz_fromMidiNote (m : R) :
  getFrequencyHz (fromMidiNote m) = R_midiToFrequency m.
Proof. reflexivity. Qed.

(** MIDI round trip: exact over the reals. *)
Lemma getMidiNote_fromMidiNote (m : R) : getMidiNote (fromMidiNote m) = m.
Proof.
  change (R_frequencyToMidi (R_midiToFrequency m) = m).
  apply R_frequencyToMidi_midiToFrequency.
Qed.

Lemma getMidiNoteName_fromMidiNote (m : Z) :
  getMidiNoteName (fromMidiNote (IZR m)) = nameOfMidiInt m.
Proof.
  rewrite getMidiNoteName_nameOfMidiInt, getMidiNote_fromMidiNote.
  change (nameOfMidiInt (Rtruncate (IZR m)) = nameOfMidiInt m).
  rewrite Rtruncate_IZR. reflexivity.
Qed.

Lemma R_midiToFrequency_57 : R_midiToFrequency 57 = 220%R.
Proof.
  unfold R_midiToFrequency.
  replace ((57 - 69) / 12)%R with (- INR 1)%R by (simpl; lra).
  rewrite Rpower_2_opp_nat. simpl. lra.
Qed.

Lemma R_midiToFrequency_9 : R_midiToFrequency 9 = 13.75%R.
Proof.
  unfold R_midiToFrequency.
  replace ((9 - 69) / 12)%R with (- INR 5)%R by (simpl; lra).
  rewrite Rpower_2_opp_nat. simpl. lra.
Qed.

(** C1. The scenarios of the table, evaluated: [fromNoteName "A4"] has the
    frequency 220 Hz (MIDI note 57, an octave below 440 Hz), and
    [fromNoteName] of "A#3", of "Bb3" and of "A", the sharp sign, "3" each
    has the MIDI note 46, an octave below 58. *)
Theorem fromNoteName_scenarios_an_octave_low :
  getFrequencyHz (fromNoteName (note "A4")) = 220%R /\
  getMidiNote (fromNoteName (note "A#3")) = 46%R /\
  getMidiNote (fromNoteName (note "Bb3")) = 46%R /\
  getMidiNote (fromNoteName (note "A" ++ getSharpSymbol :: note "3")) = 46%R.
Proof.
  rewrite fromNoteName_A4, fromNoteName_Asharp3, fromNoteName_Bflat3,
    fromNoteName_Asharp3_unicode.
  rewrite getFrequencyHz_fromMidiNote, !getMidiNote_fromMidiNote.
  repeat split; try reflexivity.
  exact R_midiToFrequency_57.
Qed.

(** C2. The name round trip, evaluated for every MIDI note [m] of 1..127:
    the name of a C (a multiple of 12) is read back as the pitch of
    frequency 0; any other name is read back an octave off, as [m - 12]
    from 12 on and as [m + 12] below 12. In no case is the pitch read back
    the pitch of [m]. *)
Theorem name_round_trip_an_octave_off (m : Z) :
  1 <= m <= 127 ->
  (m mod 12 = 0 ->
     getFrequencyHz (fromNoteName (getMidiNoteName (fromMidiNote (IZR m)))) = 0%R) /\
  (m mod 12 <> 0 -> 12 <= m ->
     getMidiNote (fromNoteName (getMidiNoteName (fromMidiNote (IZR m)))) = IZR (m - 12)) /\
  (m mod 12 <> 0 -> m < 12 ->
     getMidiNote (fromNoteName (getMidiNoteName (fromMidiNote (IZR m)))) = IZR (m + 12)) /\
  fromNoteName (getMidiNoteName (fromMidiNote (IZR m))) <> fromMidiNote (IZR m).
Proof.
  intros Hm.
  rewrite getMidiNoteName_fromMidiNote, fromNoteName_midiNoteOf.
  pose proof (readsBack_midi m Hm) as Hback.
  unfold readsBack in Hback.
  apply andb_true_iff in Hback. destruct Hback as [Hpc Hmidi].
  apply Z.eqb_eq in Hpc, Hmidi.
  rewrite Z.rem_mod_nonneg in Hpc by lia.
  pose proof (Z.mod_pos_bound m 12 ltac:(lia)) as Hbound.
  rewrite Hpc, Hmidi.
  split; [| split; [| split]].
  - intros H0. rewrite H0. reflexivity.
  - intros Hne Hge.
    destruct (Z.ltb_spec 0 (m mod 12)); [| lia].
    destruct (Z.ltb_spec m 12); [lia |].
    apply getMidiNote_fromMidiNote.
  - intros Hne Hlt.
    destruct (Z.ltb_spec 0 (m mod 12)); [| lia].
    destruct (Z.ltb_spec m 12); [| lia].
    apply getMidiNote_fromMidiNote.
  - destruct (Z.ltb_spec 0 (m mod 12)) as [Hpos | Hzero].
    + intros Heq. apply (f_equal getMidiNote) in Heq.
      rewrite !getMidiNote_fromMidiNote in Heq.
      apply eq_IZR in Heq.
      destruct (Z.ltb_spec m 12); lia.
    + intros Heq. apply (f_equal getFrequencyHz) in Heq.
      rewrite getFrequencyHz_fromMidiNote in Heq.
      pose proof (R_midiToFrequency_pos (IZR m)) as Hfreq.
      rewrite <- Heq in Hfreq. exact (Rlt_irrefl _ Hfreq).
Qed.

Lemma name_round_trip_an_octave_off_witness :
  1 <= 69 <= 127 /\
  getMidiNoteName (fromMidiNote (IZR 69)) = note "A4" /\
  getMidiNote (fromNoteName (getMidiNoteName (fromMidiNote (IZR 69)))) = IZR 57.
Proof.
  assert (Hm : 1 <= 69 <= 127) by lia.
  split; [exact Hm |].
  split; [rewrite getMidiNoteName_fromMidiNote; reflexivity |].
  destruct (name_round_trip_an_octave_off 69 Hm) as [_ [Hge _]].
  apply Hge; [discriminate | lia].
Defined.

(** "not a note" keeps the letters "a" and "e", so it is read as the pitch
    class 9 in octave 0, and the frequency of the result is not 0. *)
Lemma fromNoteName_not_a_note_nonzero :
  getFrequencyHz (fromNoteName (note "not a note")) <> 0%R.
Proof.
  rewrite fromNoteName_not_a_note, getFrequencyHz_fromMidiNote.
  pose proof (R_midiToFrequency_pos (ofInt 9)) as Hpos.
  intros H0. rewrite H0 in Hpos. exact (Rlt_irrefl _ Hpos).
Qed.

(** C4. The input that cannot be parsed, evaluated: of "not a note" the
    parser retains "ae", which it reads as pitch class 9 in octave 0, so
    [fromNoteName "not a note"] is [fromMidiNote 9], of frequency 13.75 Hz
    and not 0, where the comment of [fromNoteName] promises the frequency 0
    for a string that can not be parsed properly. ("zz", of which nothing is
    retained, does give the frequency 0.) *)
Theorem fromNoteName_not_a_note_is_midi_9 :
  pitchClassNameOf (note "not a note") = note "ae" /\
  pitchClassOf (note "not a note") = 9 /\
  octaveOf (note "not a note") = 0 /\
  fromNoteName (note "not a note") = fromMidiNote (IZR 9) /\
  getFrequencyHz (fromNoteName (note "not a note")) = 13.75%R /\
  pitchClassNameOf (note "zz") = juce.empty /\
  getFrequencyHz (fromNoteName (note "zz")) = 0%R.
Proof.
  repeat split; try reflexivity.
  rewrite fromNoteName_not_a_note, getFrequencyHz_fromMidiNote.
  exact R_midiToFrequency_9.
Qed.

Lemma getMidiNoteName_below_midi_0_witness :
  Int.rem (toInt (getMidiNote (fromMidiNote (IZR (-1))))) 12 = -1 /\
  getMidiNoteName (fromMidiNote (IZR (-1))) = note "-1".
Proof.
  assert (Hm : toInt (getMidiNote (fromMidiNote (IZR (-1)))) = -1).
  { rewrite getMidiNote_fromMidiNote. exact (Rtruncate_IZR (-1)). }
  split; [rewrite Hm; reflexivity |].
  destruct (@getMidiNoteName_below_midi_0 RDouble RAudioUtility
              (@fromMidiNote RDouble RAudioUtility (IZR (-1))))
    as [_ [_ Hname]].
  - rewrite Hm. lia.
  - rewrite Hm. discriminate.
  - rewrite Hname, Hm. reflexivity.
Defined.

End ExactArithmetic.

(* ================================================================== *)
(** ** The frequency 0 marks a rejected parse *)

Section ZeroFrequency.

Context {CF : CharacterFunctions}.

#[local] Existing Instance RDouble.

(** Any [midiToFrequency] over the reals that is positive everywhere, as
    [440 * 2^((m - 69) / 12)] is. *)
Variable AU : AudioUtility RDouble.
Hypothesis midiToFrequency_positive :
  forall m : R, (0 < @midiToFrequency RDouble AU m)%R.

(** C9. With [midiToFrequency] in exact arithmetic, where it is positive at
    every [m]: for every input string the frequency of [fromNoteName] is
    either exactly 0, and then the parsed pitch class did not pass the test
    [pitchClass > 0], or it is positive, and then it did. So the frequency
    is 0 exactly when the parse was rejected. *)
Theorem fromNoteName_zero_or_positive (noteName : juce.String) :
  ((getFrequencyHz (fromNoteName noteName) = 0%R /\ pitchClassOf noteName <= 0) \/
   ((0 < getFrequencyHz (fromNoteName noteName))%R /\ 0 < pitchClassOf noteName)) /\
  (getFrequencyHz (fromNoteName noteName) = 0%R <-> ~ 0 < pitchClassOf noteName).
Proof.
  rewrite fromNoteName_unfold.
  destruct (Z.ltb_spec 0 (pitchClassOf noteName)) as [Hpos | Hneg].
  - pose proof (midiToFrequency_positive
                  (ofInt (Int.add (Int.mul (octaveOf noteName) 12)
                                  (pitchClassOf noteName)))) as Hfreq.
    change (getFrequencyHz (fromMidiNote ?m)) with (@midiToFrequency RDouble AU m).
    split; [right; split; assumption |].
    split; [intros H0; rewrite H0 in Hfreq; destruct (Rlt_irrefl _ Hfreq)
           | intros Hno; contradiction].
  - change (getFrequencyHz (Pitch_ofFrequency zero)) with 0%R.
    split; [left; split; [reflexivity | assumption] |].
    split; [intros _; lia | reflexivity].
Qed.

End ZeroFrequency.

Lemma fromNoteName_zero_or_positive_witness :
  (forall m : R, (0 < R_midiToFrequency m)%R) /\
  (0 < @getFrequencyHz RDouble
         (@fromNoteName CLocale RDouble RAudioUtility (note "A4")))%R /\
  @getFrequencyHz RDouble
    (@fromNoteName CLocale RDouble RAudioUtility (note "C4")) = 0%R.
Proof.
  split; [exact R_midiToFrequency_pos |].
  split.
  - destruct (@fromNoteName_zero_or_positive CLocale RAudioUtility
                R_midiToFrequency_pos (note "A4")) as [[[_ H] | [H _]] _].
    + vm_compute in H. destruct (H eq_refl).
    + exact H.
  - destruct (@fromNoteName_zero_or_positive CLocale RAudioUtility
                R_midiToFrequency_pos (note "C4")) as [_ [_ H]].
    apply H. vm_compute. discriminate.
Defined.

(* ================================================================== *)
(** ** The pitch class of a letter and an accidental *)

Section Accidentals.

#[local] Existing Instance CLocale.

Lemma ltb_0_length (n : nat) : (0 <? Z.of_nat (S n)) = true.
Proof. apply Z.ltb_lt. lia. Qed.

Lemma ltb_1_length (n : nat) : (1 <? Z.of_nat (S (S n))) = true.
Proof. apply Z.ltb_lt. lia. Qed.

(** Only the first two characters of the pitch class name are read. *)
Lemma getPitchClass_first_two (base accidental : juce_wchar) (rest : juce.String) :
  getPitchClass (base :: accidental :: rest) = getPitchClass [base; accidental].
Proof.
  unfold getPitchClass, juce.length, juce.charAt, juce.toLowerCase.
  cbn [List.length map nth].
  rewrite !ltb_0_length, !ltb_1_length. reflexivity.
Qed.

(** C5. The pitch class of a base letter with an accidental, evaluated:
    "b#" (11 raised to 12) is reduced to 0, but "cb" (0 lowered to -1)
    stays -1, because [%] keeps the sign of -1; so does "c" with the flat
    sign. For every other base letter and accidental the result lies in
    0..11. *)
Theorem getPitchClass_c_flat_stays_negative :
  getPitchClass (note "cb") = -1 /\
  getPitchClass [ch "c"; getFlatSymbol] = -1 /\
  getPitchClass (note "b#") = 0 /\
  getPitchClass [ch "b"; getSharpSymbol] = 0 /\
  (forall (base accidental : juce_wchar) (rest : juce.String),
     In base (note "cdefgab") ->
     In accidental (note "#b" ++ [getSharpSymbol; getFlatSymbol]) ->
     (base = ch "c" /\
      (accidental = ch "b" \/ accidental = getFlatSymbol) /\
      getPitchClass (base :: accidental :: rest) = -1) \/
     0 <= getPitchClass (base :: accidental :: rest) <= 11).
Proof.
  repeat split; try reflexivity.
  intros base accidental rest Hbase Hacc.
  rewrite getPitchClass_first_two.
  cbn in Hbase, Hacc.
  repeat (destruct Hbase as [Hbase | Hbase]; [subst base |]);
    [.. | contradiction];
    (repeat (destruct Hacc as [Hacc | Hacc]; [subst accidental |]);
      [.. | contradiction]);
    vm_compute; intuition congruence.
Qed.

End Accidentals.

(* ================================================================== *)
(** ** The range of the parsed pitch class *)

Section PitchClassRange.

Context {CF : CharacterFunctions}.

Lemma basePitchClass_values (base : juce_wchar) :
  In (basePitchClass base) [0; 2; 4; 5; 7; 9; 11; -1].
Proof.
  unfold basePitchClass.
  repeat (match goal with
          | |- context [if ?b then _ else _] => destruct b
          end; [cbn; tauto |]).
  cbn; tauto.
Qed.

(** [getPitchClass] reads the length and the first two characters only. *)
Lemma getPitchClass_two_chars (base accidental : juce_wchar) (rest : juce.String) :
  getPitchClass (base :: accidental :: rest) = getPitchClass [base; accidental].
Proof.
  unfold getPitchClass, juce.length, juce.charAt, juce.toLowerCase.
  cbn [List.length map nth].
  rewrite !ltb_0_length, !ltb_1_length. reflexivity.
Qed.

Lemma getPitchClass_nil : getPitchClass [] = -1.
Proof. reflexivity. Qed.

Lemma getPitchClass_one_char (base : juce_wchar) :
  getPitchClass [base] = basePitchClass (toLowerCaseChar base).
Proof. reflexivity. Qed.

Lemma getPitchClass_bounds_two (base accidental : juce_wchar) :
  -2 <= getPitchClass [base; accidental] <= 11.
Proof.
  unfold getPitchClass, juce.length, juce.charAt, juce.toLowerCase.
  cbn [List.length map nth].
  change (0 <? Z.of_nat 2) with true. change (1 <? Z.of_nat 2) with true.
  cbv iota.
  pose proof (basePitchClass_values (toLowerCaseChar base)) as Hbase.
  generalize dependent (basePitchClass (toLowerCaseChar base)).
  intros b Hbase.
  destruct (Z.eqb_spec accidental (ch "#")) as [Hs | _];
    [| destruct (Z.eqb_spec accidental (ch "b")) as [Hf | _]];
    (destruct (Z.eqb_spec accidental getSharpSymbol) as [Hus | _];
      [| destruct (Z.eqb_spec accidental getFlatSymbol) as [Huf | _]]);
    try (subst accidental; discriminate);
    cbn in Hbase;
    repeat (destruct Hbase as [Hbase | Hbase];
            [subst b; vm_compute; split; discriminate |]);
    contradiction.
Qed.

End PitchClassRange.

Section ParsedPitch.

Context {CF : CharacterFunctions} {D : Double} {AU : AudioUtility D}.

Lemma getPitchClass_bounds (s : juce.String) : -2 <= getPitchClass s <= 11.
Proof.
  destruct s as [| base [| accidental rest]].
  - rewrite getPitchClass_nil. lia.
  - rewrite getPitchClass_one_char.
    pose proof (basePitchClass_values (toLowerCaseChar base)) as Hbase.
    cbn in Hbase. lia.
  - rewrite getPitchClass_two_chars. apply getPitchClass_bounds_two.
Qed.

(** X1. The pitch class read from any string lies in -2..11, so a note name
    is either rejected (the pitch of frequency 0) or accepted with a pitch
    class in 1..11: [fromNoteName] never yields a C. *)
Theorem fromNoteName_pitch_class_range (noteName : juce.String) :
  -2 <= pitchClassOf noteName <= 11 /\
  (fromNoteName noteName = Pitch_ofFrequency zero \/
   (1 <= pitchClassOf noteName <= 11 /\
    fromNoteName noteName =
    fromMidiNote
      (ofInt (Int.add (Int.mul (octaveOf noteName) 12) (pitchClassOf noteName))))).
Proof.
  pose proof (getPitchClass_bounds (pitchClassNameOf noteName)) as Hb.
  fold (pitchClassOf noteName) in Hb.
  split; [exact Hb |].
  destruct (Z.le_gt_cases (pitchClassOf noteName) 0) as [Hle | Hgt].
  - left. apply fromNoteName_rejected. exact Hle.
  - right. split; [lia |]. apply fromNoteName_accepted. lia.
Qed.

(** X3. The sharp sign and the flat sign stand for [#] and [b] after the base
    letter: whatever the base character and whatever follows, the pitch
    class is the same with either spelling of the accidental. *)
Theorem getPitchClass_unicode_accidentals
    (base : juce_wchar) (rest rest' : juce.String) :
  getPitchClass (base :: getSharpSymbol :: rest) =
  getPitchClass (base :: ch "#" :: rest') /\
  getPitchClass (base :: getFlatSymbol :: rest) =
  getPitchClass (base :: ch "b" :: rest').
Proof.
  rewrite !(getPitchClass_two_chars base _ rest).
  rewrite !(getPitchClass_two_chars base _ rest').
  split; reflexivity.
Qed.

Lemma octaveNameOf_app (s t : juce.String) :
  octaveNameOf (s ++ t) = octaveNameOf s ++ octaveNameOf t.
Proof. unfold octaveNameOf, juce.retainCharacters. apply filter_app. Qed.

Lemma pitchClassNameOf_app (s t : juce.String) :
  pitchClassNameOf (s ++ t) = pitchClassNameOf s ++ pitchClassNameOf t.
Proof.
  unfold pitchClassNameOf, juce.retainCharacters, juce.toLowerCase.
  rewrite map_app. apply filter_app.
Qed.

Lemma getPitchClass_app (s t : juce.String) :
  (2 <= List.length s)%nat -> getPitchClass (s ++ t) = getPitchClass s.
Proof.
  destruct s as [| base [| accidental rest]]; cbn [List.length]; try lia.
  intros _. cbn [app].
  rewrite getPitchClass_two_chars. symmetry. apply getPitchClass_two_chars.
Qed.

(** X4. Once two pitch class characters have been read, what follows is not
    looked at unless it is a digit: appending to a note name any text with no
    decimal digit in it leaves the pitch as it was. *)
Theorem fromNoteName_trailing_text (noteName text : juce.String) :
  (2 <= List.length (pitchClassNameOf noteName))%nat ->
  octaveNameOf text = juce.empty ->
  fromNoteName (noteName ++ text) = fromNoteName noteName.
Proof.
  intros Hlen Hdigits. unfold fromNoteName.
  rewrite octaveNameOf_app, pitchClassNameOf_app, Hdigits.
  unfold juce.empty. rewrite app_nil_r.
  rewrite (getPitchClass_app _ _ Hlen). reflexivity.
Qed.

Lemma Int_mul_0_add (pc : Z) : -2 <= pc <= 11 -> Int.add (Int.mul 0 12) pc = pc.
Proof. intros Hpc. unfold Int.add, Int.mul. cbn. apply Int_wrap_small. lia. Qed.

(** X5. A note name with no digit in it is read in octave 0: when its pitch
    class is accepted, the MIDI note is the pitch class itself. *)
Theorem fromNoteName_without_octave (noteName : juce.String) :
  octaveNameOf noteName = juce.empty ->
  0 < pitchClassOf noteName ->
  octaveOf noteName = 0 /\
  fromNoteName noteName = fromMidiNote (ofInt (pitchClassOf noteName)).
Proof.
  intros Hdigits Hpc.
  assert (Hoct : octaveOf noteName = 0)
    by (unfold octaveOf; rewrite Hdigits; reflexivity).
  split; [exact Hoct |].
  rewrite (fromNoteName_accepted _ Hpc), Hoct.
  rewrite Int_mul_0_add; [reflexivity |].
  apply getPitchClass_bounds.
Qed.

End ParsedPitch.

(* ================================================================== *)
(** ** Writing and reading decimal numbers *)

Lemma containsChar_In (set : juce.String) (c : juce_wchar) :
  juce.containsChar set c = true <-> In c set.
Proof.
  unfold juce.containsChar. rewrite existsb_exists. split.
  - intros [x [Hin Heq]]. apply Z.eqb_eq in Heq. subst x. exact Hin.
  - intros Hin. exists c. split; [exact Hin | apply Z.eqb_refl].
Qed.

Lemma retainCharacters_all (s set : juce.String) :
  Forall (fun c => juce.containsChar set c = true) s ->
  juce.retainCharacters s set = s.
Proof.
  unfold juce.retainCharacters.
  induction 1 as [| c s Hc _ IH]; cbn [filter]; [reflexivity |].
  rewrite Hc, IH. reflexivity.
Qed.

Lemma retainCharacters_none (s set : juce.String) :
  Forall (fun c => juce.containsChar set c = false) s ->
  juce.retainCharacters s set = [].
Proof.
  unfold juce.retainCharacters.
  induction 1 as [| c s Hc _ IH]; cbn [filter]; [reflexivity |].
  rewrite Hc. exact IH.
Qed.

Lemma retainCharacters_retained (s set : juce.String) :
  Forall (fun c => juce.containsChar set c = true) (juce.retainCharacters s set).
Proof.
  unfold juce.retainCharacters. apply Forall_forall.
  intros c Hin. apply filter_In in Hin. tauto.
Qed.

Lemma string_of_uint_digits (d : Decimal.uint) :
  Forall (fun c => juce.containsChar decimalDigits c = true)
         (juce.fromAscii (NilEmpty.string_of_uint d)).
Proof.
  induction d; cbn; constructor; solve [reflexivity | assumption].
Qed.

Lemma string_of_uint_nonnil (d : Decimal.uint) :
  d <> Decimal.Nil -> NilZero.string_of_uint d = NilEmpty.string_of_uint d.
Proof. destruct d; [congruence | reflexivity ..]. Qed.

Lemma NilZero_string_of_uint_digits (d : Decimal.uint) :
  Forall (fun c => juce.containsChar decimalDigits c = true)
         (juce.fromAscii (NilZero.string_of_uint d)).
Proof.
  destruct d; try apply string_of_uint_digits.
  cbn. constructor; [reflexivity | constructor].
Qed.

(** The digits of a number that is not negative, as [operator<<] writes
    them. *)
Lemma to_int_nonneg (n : Z) :
  0 <= n ->
  exists d, Z.to_int n = Decimal.Pos d /\ d <> Decimal.Nil /\ decimalValue 0 d = n.
Proof.
  intros Hn.
  assert (Hacc : forall d acc,
             decimalValue (Z.pos acc) d = Z.pos (Pos.of_uint_acc d acc)).
  { induction d; intros acc; cbn [decimalValue Pos.of_uint_acc];
      [reflexivity | rewrite <- IHd; f_equal; lia ..]. }
  assert (Hval : forall d, decimalValue 0 d = Z.of_N (Pos.of_uint d)).
  { induction d; cbn [decimalValue Pos.of_uint];
      [reflexivity | exact IHd | apply Hacc ..]. }
  destruct n as [| p | p]; [| | lia].
  - exists (Decimal.D0 Decimal.Nil). repeat split; [discriminate].
  - exists (Pos.to_uint p). split; [reflexivity |].
    split; [apply DecimalPos.Unsigned.to_uint_nonnil |].
    rewrite Hval, DecimalPos.Unsigned.of_to. reflexivity.
Qed.

Lemma decimalValue_le (d : Decimal.uint) (v : Z) :
  0 <= v -> v <= decimalValue v d.
Proof.
  revert v. induction d; intros v Hv; cbn [decimalValue]; [lia | ..];
    match goal with
    | |- _ <= decimalValue ?w _ => specialize (IHd w ltac:(lia)); lia
    end.
Qed.

(** The loop of [getIntValue] over written digits, while the number fits
    an [int]. *)
Lemma getIntValueLoop_decimalValue (d : Decimal.uint) (v : Z) (rest : juce.String) :
  0 <= v -> decimalValue v d < 2 ^ 31 ->
  juce.getIntValueLoop v (juce.fromAscii (NilEmpty.string_of_uint d) ++ rest) =
  juce.getIntValueLoop (decimalValue v d) rest.
Proof.
  revert v. induction d; intros v Hv Hfit; cbn [decimalValue] in *;
    [reflexivity | ..];
    match type of Hfit with
    | decimalValue ?w _ < _ =>
        pose proof (decimalValue_le d w ltac:(lia)) as Hle;
        rewrite <- (IHd w ltac:(lia) Hfit)
    end;
    cbn [NilEmpty.string_of_uint juce.fromAscii list_ascii_of_string map app
         juce.getIntValueLoop];
    change (juce.fromAscii ?s) with (map ch (list_ascii_of_string s));
    match goal with
    | |- context [if ?b then _ else _] => change b with true
    end;
    cbv iota; f_equal;
    unfold Int.add, Int.mul; rewrite (Int_wrap_small (v * 10)) by lia;
    apply Int_wrap_small; cbn; lia.
Qed.

Lemma string_of_int_chars (i : Decimal.signed_int) :
  Forall (fun c => In c (juce.fromAscii "-0123456789"))
         (juce.fromAscii (NilZero.string_of_int i)).
Proof.
  assert (Hu : forall d, Forall (fun c => In c (juce.fromAscii "-0123456789"))
                                (juce.fromAscii (NilZero.string_of_uint d))).
  { intros d. eapply Forall_impl; [| apply NilZero_string_of_uint_digits].
    intros c Hc. apply containsChar_In in Hc. right. exact Hc. }
  destruct i as [d | d]; cbn [NilZero.string_of_int]; [apply Hu |].
  change (juce.fromAscii (String "-" (NilZero.string_of_uint d)))
    with (ch "-" :: juce.fromAscii (NilZero.string_of_uint d)).
  constructor; [left; reflexivity | apply Hu].
Qed.

Lemma getNoteName_out_of_range (pitchClass : Z) :
  ~ 0 <= pitchClass <= 11 -> getNoteName pitchClass = juce.empty.
Proof.
  intros Hout. destruct pitchClass as [| p | p]; [lia | | reflexivity].
  do 4 (try (destruct p as [p | p |]; try reflexivity; try lia)).
Qed.

Lemma pitchClass_cases (pitchClass : Z) :
  0 <= pitchClass <= 11 -> In pitchClass [0; 1; 2; 3; 4; 5; 6; 7; 8; 9; 10; 11].
Proof. intros H. cbn. lia. Qed.

Ltac each_pitch_class H :=
  apply pitchClass_cases in H; cbn [In] in H;
  repeat (destruct H as [H | H]; [subst |]); [.. | contradiction].

Section WrittenNames.

Context {D : Double} {AU : AudioUtility D}.

#[local] Existing Instance CLocale.

Lemma written_number_no_pitch_letter (number : Z) :
  pitchClassNameOf (juce.appendInt juce.empty number) = [].
Proof.
  unfold pitchClassNameOf, juce.appendInt, juce.empty, juce.toLowerCase.
  cbn [app]. apply retainCharacters_none.
  apply Forall_map.
  eapply Forall_impl; [| apply string_of_int_chars].
  intros c Hc. cbn in Hc.
  repeat (destruct Hc as [Hc | Hc]; [subst c; reflexivity |]).
  contradiction.
Qed.

Lemma written_number_digits (n : Z) :
  0 <= n ->
  exists d, juce.appendInt juce.empty n = juce.fromAscii (NilEmpty.string_of_uint d) /\
            d <> Decimal.Nil /\ decimalValue 0 d = n.
Proof.
  intros Hn. destruct (to_int_nonneg n Hn) as [d [Hd [Hnil Hval]]].
  exists d. split; [| split; assumption].
  unfold juce.appendInt, juce.empty. cbn [app].
  rewrite Hd. cbn [NilZero.string_of_int].
  rewrite (string_of_uint_nonnil d Hnil). reflexivity.
Qed.

Lemma digit_not_space_nor_minus (c : juce_wchar) :
  juce.containsChar decimalDigits c = true ->
  C_iswspace c = false /\ (c =? ch "-") = false.
Proof.
  intros Hc. apply containsChar_In in Hc. cbn in Hc.
  repeat (destruct Hc as [Hc | Hc]; [subst c; split; reflexivity |]).
  contradiction.
Qed.

(** [getIntValue] reads back what [operator<<] wrote, for a number that is
    not negative. *)
Lemma getIntValue_digits (d : Decimal.uint) :
  decimalValue 0 d < 2 ^ 31 ->
  juce.getIntValue (juce.fromAscii (NilEmpty.string_of_uint d)) = decimalValue 0 d.
Proof.
  intros Hfit.
  pose proof (getIntValueLoop_decimalValue d 0 [] ltac:(lia) Hfit) as Hloop.
  rewrite app_nil_r in Hloop.
  pose proof (string_of_uint_digits d) as Hdigits.
  destruct (juce.fromAscii (NilEmpty.string_of_uint d)) as [| c s] eqn:Hs.
  - exact Hloop.
  - apply Forall_inv in Hdigits.
    destruct (digit_not_space_nor_minus c Hdigits) as [Hsp Hminus].
    unfold juce.getIntValue. cbn [juce.findEndOfWhitespace isWhitespace CLocale].
    rewrite Hsp, Hminus. exact Hloop.
Qed.

Lemma octaveNameOf_letter (pitchClass : Z) :
  octaveNameOf (getNoteName pitchClass) = [].
Proof.
  destruct (Z.le_gt_cases 0 pitchClass) as [H0 |];
    [destruct (Z.le_gt_cases pitchClass 11) as [H11 |] |];
    try (rewrite getNoteName_out_of_range by lia; reflexivity).
  assert (H : 0 <= pitchClass <= 11) by lia.
  each_pitch_class H; reflexivity.
Qed.

Lemma pitchClassOf_letter (pitchClass : Z) :
  0 <= pitchClass <= 11 ->
  getPitchClass (pitchClassNameOf (getNoteName pitchClass)) = pitchClass.
Proof. intros H. each_pitch_class H; reflexivity. Qed.

Lemma nameOfMidiInt_parts (m : Z) :
  nameOfMidiInt m =
  getNoteName (Int.rem m 12) ++
  juce.appendInt juce.empty (Int.sub (Int.div m 12) 1).
Proof. reflexivity. Qed.

Lemma pitchClassOf_nameOfMidiInt (m : Z) :
  0 <= m -> pitchClassOf (nameOfMidiInt m) = m mod 12.
Proof.
  intros Hm. unfold pitchClassOf.
  rewrite nameOfMidiInt_parts, pitchClassNameOf_app.
  rewrite written_number_no_pitch_letter, app_nil_r.
  unfold Int.rem. rewrite Z.rem_mod_nonneg by lia.
  apply pitchClassOf_letter.
  pose proof (Z.mod_pos_bound m 12 ltac:(lia)). lia.
Qed.

Lemma octave_of_midi (m : Z) :
  0 <= m < 2 ^ 31 -> Int.sub (Int.div m 12) 1 = m / 12 - 1.
Proof.
  intros Hm. unfold Int.sub, Int.div.
  rewrite Z.quot_div_nonneg by lia.
  assert (0 <= m / 12 <= m) by (split; [apply Z.div_pos; lia | apply Z.div_le_upper_bound; lia]).
  rewrite (Int_wrap_small (m / 12)) by lia.
  apply Int_wrap_small. lia.
Qed.

Lemma octaveOf_nameOfMidiInt (m : Z) :
  12 <= m < 2 ^ 31 -> octaveOf (nameOfMidiInt m) = m / 12 - 1.
Proof.
  intros Hm. unfold octaveOf.
  rewrite nameOfMidiInt_parts, octaveNameOf_app, octaveNameOf_letter.
  cbn [app]. rewrite octave_of_midi by lia.
  assert (Hoct : 0 <= m / 12 - 1 < 2 ^ 31).
  { assert (1 <= m / 12) by (apply Z.div_le_lower_bound; lia).
    assert (m / 12 <= m) by (apply Z.div_le_upper_bound; lia). lia. }
  destruct (written_number_digits (m / 12 - 1) ltac:(lia)) as [d [Hd [_ Hval]]].
  rewrite Hd.
  unfold octaveNameOf. fold decimalDigits.
  rewrite (retainCharacters_all _ _ (string_of_uint_digits d)).
  rewrite getIntValue_digits; rewrite Hval; [reflexivity | lia].
Qed.

Lemma octaveOf_nameOfMidiInt_low (m : Z) :
  0 <= m < 12 -> octaveOf (nameOfMidiInt m) = 1.
Proof.
  intros Hm. assert (H : 0 <= m <= 11) by lia.
  each_pitch_class H; reflexivity.
Qed.

End WrittenNames.

(* ================================================================== *)
(** ** Reading back a written note name *)

Section ReadingBack.

Context {D : Double} {AU : AudioUtility D}.

#[local] Existing Instance CLocale.

(** X9. The table of [getNoteName] and the parser [getPitchClass] agree: the
    pitch class of the name of a pitch class in 0..11 is that pitch class,
    and outside 0..11 the name is empty and its pitch class is -1. *)
Theorem getPitchClass_getNoteName (pitchClass : Z) :
  getPitchClass (getNoteName pitchClass) =
  if (0 <=? pitchClass) && (pitchClass <=? 11) then pitchClass else -1.
Proof.
  destruct (Z.leb_spec 0 pitchClass) as [H0 | H0];
    [destruct (Z.leb_spec pitchClass 11) as [H11 | H11] |]; cbn [andb];
    try (rewrite getNoteName_out_of_range by lia; reflexivity).
  assert (H : 0 <= pitchClass <= 11) by lia.
  each_pitch_class H; reflexivity.
Qed.

(** X10. The pitch class survives the way through the name: for a pitch whose
    truncated MIDI note [m] is not negative, [fromNoteName] parses the pitch
    class [m mod 12] out of [getMidiNoteName]. *)
Theorem getMidiNoteName_pitch_class_read_back (p : Pitch) :
  0 <= toInt (getMidiNote p) ->
  pitchClassOf (getMidiNoteName p) = toInt (getMidiNote p) mod 12.
Proof.
  intros Hm. rewrite getMidiNoteName_nameOfMidiInt.
  apply pitchClassOf_nameOfMidiInt. exact Hm.
Qed.

(** X11. The octave number is read back as it was written: from MIDI note 12 on,
    [fromNoteName] parses the number [m / 12 - 1] that [getMidiNoteName]
    wrote after the letter; below 12 the number written is -1, whose sign is
    not a digit, and 1 is parsed. *)
Theorem getMidiNoteName_octave_read_back (p : Pitch) :
  0 <= toInt (getMidiNote p) < 2 ^ 31 ->
  octaveOf (getMidiNoteName p) =
  if toInt (getMidiNote p) <? 12 then 1 else toInt (getMidiNote p) / 12 - 1.
Proof.
  intros Hm. rewrite getMidiNoteName_nameOfMidiInt.
  destruct (Z.ltb_spec (toInt (getMidiNote p)) 12) as [Hlow | Hhigh].
  - apply octaveOf_nameOfMidiInt_low. lia.
  - apply octaveOf_nameOfMidiInt. lia.
Qed.

(** Name and back, for any arithmetic: for a pitch whose truncated MIDI
    note [m] is in [0, 2^31), [fromNoteName (getMidiNoteName p)] is the pitch
    of frequency 0 when [m] is a multiple of 12, and otherwise the pitch of
    MIDI note [m - 12] (from 12 on) or [m + 12] (below 12). *)
Theorem fromNoteName_getMidiNoteName (p : Pitch) :
  0 <= toInt (getMidiNote p) < 2 ^ 31 ->
  fromNoteName (getMidiNoteName p) =
  if toInt (getMidiNote p) mod 12 =? 0 then Pitch_ofFrequency zero
  else if toInt (getMidiNote p) <? 12
       then fromMidiNote (ofInt (toInt (getMidiNote p) + 12))
       else fromMidiNote (ofInt (toInt (getMidiNote p) - 12)).
Proof.
  intros Hm. rewrite getMidiNoteName_nameOfMidiInt.
  set (m := toInt (getMidiNote p)) in *.
  rewrite fromNoteName_unfold.
  rewrite (pitchClassOf_nameOfMidiInt m) by lia.
  pose proof (Z.mod_pos_bound m 12 ltac:(lia)) as Hpc.
  pose proof (Z.div_mod m 12 ltac:(lia)) as Hdiv.
  destruct (Z.eqb_spec (m mod 12) 0) as [H0 | Hn0].
  - rewrite H0. reflexivity.
  - destruct (Z.ltb_spec 0 (m mod 12)); [| lia].
    destruct (Z.ltb_spec m 12) as [Hlow | Hhigh].
    + rewrite octaveOf_nameOfMidiInt_low by lia.
      rewrite Z.mod_small by lia.
      do 2 f_equal. unfold Int.add, Int.mul. cbn [Z.mul Pos.mul].
      rewrite (Int_wrap_small 12) by lia.
      rewrite Int_wrap_small by lia. lia.
    + rewrite octaveOf_nameOfMidiInt by lia.
      do 2 f_equal. unfold Int.add, Int.mul.
      assert (1 <= m / 12) by (apply Z.div_le_lower_bound; lia).
      rewrite (Int_wrap_small ((m / 12 - 1) * 12)) by lia.
      rewrite Int_wrap_small by lia. lia.
Qed.

(** X12. [getMidiNoteName] writes capital letters A..G, [#], the minus sign and
    decimal digits, and nothing else: no flat, no small letter, no character
    outside ASCII, whatever the pitch. *)
Theorem getMidiNoteName_alphabet (p : Pitch) :
  Forall (fun c => juce.containsChar nameAlphabet c = true) (getMidiNoteName p).
Proof.
  rewrite getMidiNoteName_nameOfMidiInt, nameOfMidiInt_parts.
  apply Forall_app. split.
  - generalize (Int.rem (toInt (getMidiNote p)) 12). intros pitchClass.
    destruct (Z.le_gt_cases 0 pitchClass) as [H0 |];
      [destruct (Z.le_gt_cases pitchClass 11) as [H11 |] |];
      try (rewrite getNoteName_out_of_range by lia; constructor).
    assert (H : 0 <= pitchClass <= 11) by lia.
    each_pitch_class H; repeat constructor.
  - unfold juce.appendInt, juce.empty. cbn [app].
    eapply Forall_impl; [| apply string_of_int_chars].
    intros c Hc. apply containsChar_In.
    cbn in Hc |- *. tauto.
Qed.

End ReadingBack.

Lemma toInt_getMidiNote_exact (m : Z) :
  @toInt RDouble
    (@getMidiNote RDouble RAudioUtility (@fromMidiNote RDouble RAudioUtility (IZR m))) = m.
Proof. rewrite getMidiNote_fromMidiNote. exact (Rtruncate_IZR m). Qed.

Lemma getMidiNoteName_pitch_class_read_back_witness :
  @pitchClassOf CLocale
    (@getMidiNoteName RDouble RAudioUtility
       (@fromMidiNote RDouble RAudioUtility (IZR 70))) = 10.
Proof.
  rewrite (@getMidiNoteName_pitch_class_read_back RDouble RAudioUtility);
    rewrite toInt_getMidiNote_exact; [reflexivity | lia].
Defined.

Lemma getMidiNoteName_octave_read_back_witness :
  @octaveOf CLocale
    (@getMidiNoteName RDouble RAudioUtility
       (@fromMidiNote RDouble RAudioUtility (IZR 70))) = 4.
Proof.
  rewrite (@getMidiNoteName_octave_read_back RDouble RAudioUtility);
    rewrite toInt_getMidiNote_exact; [reflexivity | lia].
Defined.

Lemma fromNoteName_getMidiNoteName_witness :
  @fromNoteName CLocale RDouble RAudioUtility
    (@getMidiNoteName RDouble RAudioUtility
       (@fromMidiNote RDouble RAudioUtility (IZR 70))) =
  @fromMidiNote RDouble RAudioUtility (IZR 58).
Proof.
  rewrite (@fromNoteName_getMidiNoteName RDouble RAudioUtility);
    rewrite toInt_getMidiNote_exact; [reflexivity | lia].
Defined.

(* ================================================================== *)
(** ** The octave digits *)

Lemma pow10_succ (n : nat) : 10 ^ Z.of_nat (S n) = 10 * 10 ^ Z.of_nat n.
Proof. rewrite Nat2Z.inj_succ, Z.pow_succ_r by lia. reflexivity. Qed.

Lemma pow10_pos (n : nat) : 0 < 10 ^ Z.of_nat n.
Proof. apply Z.pow_pos_nonneg; lia. Qed.

Lemma pow10_le (n k : nat) : (n <= k)%nat -> 10 ^ Z.of_nat n <= 10 ^ Z.of_nat k.
Proof. intros H. apply Z.pow_le_mono_r; lia. Qed.

Lemma getIntValueLoop_app (s t : juce.String) (v : Z) :
  Forall (fun c => juce.containsChar decimalDigits c = true) s ->
  juce.getIntValueLoop v (s ++ t) =
  juce.getIntValueLoop (juce.getIntValueLoop v s) t.
Proof.
  intros Hs. revert v.
  induction Hs as [| c s Hc _ IH]; intros v; cbn [app juce.getIntValueLoop];
    [reflexivity |].
  apply containsChar_digits in Hc.
  destruct (Z.leb_spec (ch "0") c); [| lia].
  destruct (Z.leb_spec c (ch "9")); [| lia].
  cbn [andb]. apply IH.
Qed.

(** Without overflow the loop reads a decimal numeral: the digits read so
    far are shifted left by the number of digits still to come. *)
Lemma getIntValueLoop_shift (s : juce.String) :
  Forall (fun c => juce.containsChar decimalDigits c = true) s ->
  forall v : Z,
    0 <= v -> (v + 1) * 10 ^ Z.of_nat (List.length s) <= 2 ^ 31 ->
    juce.getIntValueLoop v s =
    v * 10 ^ Z.of_nat (List.length s) + juce.getIntValueLoop 0 s /\
    0 <= juce.getIntValueLoop 0 s < 10 ^ Z.of_nat (List.length s).
Proof.
  induction 1 as [| c s Hc _ IH]; intros v Hv Hfit.
  - cbn. lia.
  - apply containsChar_digits in Hc. unfold ch in Hc. cbn in Hc.
    cbn [List.length] in *. rewrite pow10_succ in *.
    pose proof (pow10_pos (List.length s)) as Hpow.
    cbn [juce.getIntValueLoop].
    change (ch "0") with 48. change (ch "9") with 57.
    destruct (Z.leb_spec 48 c); [| lia].
    destruct (Z.leb_spec c 57); [| lia].
    cbn [andb].
    assert (Hstep : forall w, 0 <= w -> (w + 1) * (10 * 10 ^ Z.of_nat (List.length s)) <= 2 ^ 31 ->
                              Int.add (Int.mul w 10) (c - 48) = w * 10 + (c - 48)).
    { intros w Hw Hwfit. unfold Int.add, Int.mul.
      assert (w * 10 + 10 <= 2 ^ 31) by nia.
      rewrite (Int_wrap_small (w * 10)) by lia.
      apply Int_wrap_small. lia. }
    rewrite (Hstep v Hv Hfit).
    rewrite (Hstep 0 ltac:(lia)) by nia.
    destruct (IH (v * 10 + (c - 48)) ltac:(lia) ltac:(nia)) as [Hv' Hb].
    destruct (IH (0 * 10 + (c - 48)) ltac:(lia) ltac:(nia)) as [H0' _].
    rewrite Hv', H0'. split; nia.
Qed.

Lemma getIntValue_digit_string (s : juce.String) :
  Forall (fun c => juce.containsChar decimalDigits c = true) s ->
  @juce.getIntValue CLocale s = juce.getIntValueLoop 0 s.
Proof.
  intros Hs. destruct Hs as [| c s Hc _]; [reflexivity |].
  destruct (digit_not_space_nor_minus c Hc) as [Hsp Hminus].
  unfold juce.getIntValue. cbn [juce.findEndOfWhitespace isWhitespace CLocale].
  rewrite Hsp, Hminus. reflexivity.
Qed.

Lemma octaveNameOf_digits (noteName : juce.String) :
  Forall (fun c => juce.containsChar decimalDigits c = true) (octaveNameOf noteName).
Proof. apply retainCharacters_retained. Qed.

Section OctaveDigits.

#[local] Existing Instance CLocale.

Lemma octaveOf_bounds (noteName : juce.String) :
  (List.length (octaveNameOf noteName) <= 9)%nat ->
  0 <= octaveOf noteName < 10 ^ Z.of_nat (List.length (octaveNameOf noteName)).
Proof.
  intros Hlen. unfold octaveOf.
  rewrite (getIntValue_digit_string _ (octaveNameOf_digits noteName)).
  pose proof (pow10_le _ _ Hlen) as Hpow. change (10 ^ Z.of_nat 9) with 1000000000 in Hpow.
  apply (getIntValueLoop_shift _ (octaveNameOf_digits noteName) 0); lia.
Qed.

(** X7. The octave is never negative and the MIDI note is computed without
    overflow for a note name of at most 8 digits: the octave is below 10^8
    and the [int] handed to [fromMidiNote] is the integer
    [octave * 12 + pitchClass]. *)
Theorem midiNoteOf_without_overflow (noteName : juce.String) :
  (List.length (octaveNameOf noteName) <= 8)%nat ->
  0 <= octaveOf noteName < 10 ^ 8 /\
  midiNoteOf noteName = octaveOf noteName * 12 + pitchClassOf noteName.
Proof.
  intros Hlen.
  pose proof (octaveOf_bounds noteName ltac:(lia)) as Hoct.
  pose proof (pow10_le _ 8 Hlen) as Hpow. change (Z.of_nat 8) with 8 in Hpow.
  pose proof (getPitchClass_bounds (pitchClassNameOf noteName)) as Hpc.
  fold (pitchClassOf noteName) in Hpc.
  change (10 ^ 8) with 100000000 in *.
  split; [lia |].
  unfold midiNoteOf, Int.add, Int.mul.
  rewrite (Int_wrap_small (octaveOf noteName * 12)) by lia.
  apply Int_wrap_small. lia.
Qed.

(** X8. The digits of a note name are read as one decimal numeral wherever they
    stand: with at most 9 digits in all, the octave of [s ++ t] is the
    octave of [s] followed by the digits of [t]. *)
Theorem octaveOf_app (s t : juce.String) :
  (List.length (octaveNameOf (s ++ t)) <= 9)%nat ->
  octaveOf (s ++ t) =
  octaveOf s * 10 ^ Z.of_nat (List.length (octaveNameOf t)) + octaveOf t.
Proof.
  intros Hlen.
  rewrite octaveNameOf_app, length_app in Hlen.
  pose proof (octaveOf_bounds s ltac:(lia)) as Hs.
  unfold octaveOf in *. rewrite octaveNameOf_app.
  rewrite !getIntValue_digit_string in *
    by (try apply Forall_app; auto using octaveNameOf_digits).
  rewrite getIntValueLoop_app by apply octaveNameOf_digits.
  apply (getIntValueLoop_shift _ (octaveNameOf_digits t)); [lia |].
  pose proof (pow10_le _ _ Hlen) as Hpow.
  change (10 ^ Z.of_nat 9) with 1000000000 in Hpow.
  rewrite Nat2Z.inj_add, Z.pow_add_r in Hpow by lia.
  pose proof (pow10_pos (List.length (octaveNameOf t))).
  nia.
Qed.

End OctaveDigits.

(* ================================================================== *)
(** ** Names with no base letter *)

Section NoBaseLetter.

Context {D : Double} {AU : AudioUtility D}.

#[local] Existing Instance CLocale.

Lemma getPitchClass_no_base (base : juce_wchar) (rest : juce.String) :
  basePitchClass (toLowerCaseChar base) = -1 -> getPitchClass (base :: rest) <= 0.
Proof.
  intros Hbase. destruct rest as [| accidental rest].
  - rewrite getPitchClass_one_char, Hbase. lia.
  - rewrite getPitchClass_two_chars.
    unfold getPitchClass, juce.length, juce.charAt, juce.toLowerCase.
    cbn [List.length map nth].
    change (0 <? Z.of_nat 2) with true. change (1 <? Z.of_nat 2) with true.
    cbv iota. rewrite Hbase.
    destruct (Z.eqb_spec accidental (ch "#")) as [Hs | _];
      [| destruct (Z.eqb_spec accidental (ch "b")) as [Hf | _]];
      (destruct (Z.eqb_spec accidental getSharpSymbol) as [Hus | _];
        [| destruct (Z.eqb_spec accidental getFlatSymbol) as [Huf | _]]);
      try (subst accidental; discriminate);
      vm_compute; discriminate.
Qed.

(** X2. A note name is rejected when no pitch class character is retained from
    it (the empty string, digits only, ...) and when the first one retained
    is an accidental ([#], the sharp sign or the flat sign) and not a base
    letter: [fromNoteName] returns the pitch of frequency 0. *)
Theorem fromNoteName_no_base_letter (noteName : juce.String) :
  match pitchClassNameOf noteName with
  | [] => True
  | c :: _ => c = ch "#" \/ c = getSharpSymbol \/ c = getFlatSymbol
  end ->
  fromNoteName noteName = Pitch_ofFrequency zero.
Proof.
  intros Hfirst. apply fromNoteName_rejected. unfold pitchClassOf.
  destruct (pitchClassNameOf noteName) as [| c rest].
  - rewrite getPitchClass_nil. lia.
  - apply getPitchClass_no_base.
    destruct Hfirst as [Hc | [Hc | Hc]]; subst c; reflexivity.
Qed.

End NoBaseLetter.

Lemma fromNoteName_no_base_letter_witness :
  @fromNoteName CLocale RDouble RAudioUtility (note "#3") =
  @Pitch_ofFrequency RDouble 0%R.
Proof.
  apply (@fromNoteName_no_base_letter RDouble RAudioUtility (note "#3")).
  left. reflexivity.
Defined.

(* ================================================================== *)
(** ** The two parts of a note name *)

Lemma pitch_letter_not_digit (c : juce_wchar) :
  juce.containsChar getValidPitchClassLetters c = true ->
  juce.containsChar decimalDigits c = false.
Proof.
  intros Hc. apply containsChar_In in Hc. cbn in Hc.
  repeat (destruct Hc as [Hc | Hc]; [subst c; reflexivity |]).
  contradiction.
Qed.

Lemma digit_not_pitch_letter (c : juce_wchar) :
  juce.containsChar decimalDigits c = true ->
  juce.containsChar getValidPitchClassLetters c = false.
Proof.
  intros Hc. apply containsChar_In in Hc. cbn in Hc.
  repeat (destruct Hc as [Hc | Hc]; [subst c; reflexivity |]).
  contradiction.
Qed.

Section NormalForm.

Context {CF : CharacterFunctions} {D : Double} {AU : AudioUtility D}.

Hypothesis lower_idempotent :
  forall c, toLowerCaseChar (toLowerCaseChar c) = toLowerCaseChar c.
Hypothesis lower_digit_fixed :
  forall c, juce.containsChar decimalDigits c = true -> toLowerCaseChar c = c.

Lemma pitchClassNameOf_lowered (s : juce.String) :
  juce.toLowerCase (pitchClassNameOf s) = pitchClassNameOf s.
Proof.
  unfold pitchClassNameOf, juce.retainCharacters, juce.toLowerCase.
  induction s as [| c s IH]; cbn [map filter]; [reflexivity |].
  destruct (juce.containsChar getValidPitchClassLetters (toLowerCaseChar c));
    [| exact IH].
  cbn [map]. rewrite lower_idempotent, IH. reflexivity.
Qed.

Lemma octaveNameOf_lowered (s : juce.String) :
  juce.toLowerCase (octaveNameOf s) = octaveNameOf s.
Proof.
  unfold juce.toLowerCase.
  pose proof (octaveNameOf_digits s) as Hd.
  induction Hd as [| c t Hc _ IH]; cbn [map]; [reflexivity |].
  rewrite (lower_digit_fixed c Hc), IH. reflexivity.
Qed.

(** X6. [fromNoteName] sees of its argument only the pitch class characters
    and the digits, each kept in their order: the pitch of a string is the
    pitch of its retained pitch class characters followed by its digits. So
    the octave may stand before the letter, or the two be interleaved. *)
Theorem fromNoteName_normal_form (noteName : juce.String) :
  fromNoteName (pitchClassNameOf noteName ++ octaveNameOf noteName) =
  fromNoteName noteName.
Proof.
  pose proof (octaveNameOf_digits noteName) as Hdigits.
  pose proof (retainCharacters_retained (juce.toLowerCase noteName)
                getValidPitchClassLetters) as Hletters.
  fold (pitchClassNameOf noteName) in Hletters.
  assert (Hoct : octaveNameOf (pitchClassNameOf noteName ++ octaveNameOf noteName) =
                 octaveNameOf noteName).
  { rewrite octaveNameOf_app.
    replace (octaveNameOf (pitchClassNameOf noteName)) with (@nil juce_wchar).
    - apply (retainCharacters_all _ decimalDigits). exact Hdigits.
    - symmetry. apply (retainCharacters_none _ decimalDigits).
      eapply Forall_impl; [apply pitch_letter_not_digit | exact Hletters]. }
  assert (Hpc : pitchClassNameOf (pitchClassNameOf noteName ++ octaveNameOf noteName) =
                pitchClassNameOf noteName).
  { rewrite pitchClassNameOf_app.
    change (pitchClassNameOf (pitchClassNameOf noteName))
      with (juce.retainCharacters (juce.toLowerCase (pitchClassNameOf noteName))
              getValidPitchClassLetters).
    change (pitchClassNameOf (octaveNameOf noteName))
      with (juce.retainCharacters (juce.toLowerCase (octaveNameOf noteName))
              getValidPitchClassLetters).
    rewrite pitchClassNameOf_lowered, octaveNameOf_lowered.
    rewrite (retainCharacters_all _ _ Hletters).
    rewrite retainCharacters_none; [apply app_nil_r |].
    eapply Forall_impl; [apply digit_not_pitch_letter | exact Hdigits]. }
  unfold fromNoteName. rewrite Hoct, Hpc. reflexivity.
Qed.

End NormalForm.

Lemma C_towlower_digit (c : juce_wchar) :
  juce.containsChar decimalDigits c = true -> C_towlower c = c.
Proof.
  intros Hc. apply containsChar_digits in Hc.
  apply C_towlower_other. unfold ch in *. cbn in *. lia.
Qed.

Lemma fromNoteName_normal_form_witness :
  @fromNoteName CLocale RDouble RAudioUtility (note "bb4") =
  @fromNoteName CLocale RDouble RAudioUtility (note "4 bB").
Proof.
  exact (@fromNoteName_normal_form CLocale RDouble RAudioUtility
           C_towlower_idempotent C_towlower_digit (note "4 bB")).
Defined.

Lemma fromNoteName_trailing_text_witness :
  @fromNoteName CLocale RDouble RAudioUtility (note "A#4" ++ note " sharp") =
  @fromNoteName CLocale RDouble RAudioUtility (note "A#4").
Proof.
  apply (@fromNoteName_trailing_text CLocale RDouble RAudioUtility).
  - vm_compute. lia.
  - reflexivity.
Defined.

Lemma fromNoteName_without_octave_witness :
  @octaveOf CLocale (note "Bb") = 0 /\
  @fromNoteName CLocale RDouble RAudioUtility (note "Bb") =
  @fromMidiNote RDouble RAudioUtility (IZR 10).
Proof.
  apply (@fromNoteName_without_octave CLocale RDouble RAudioUtility (note "Bb")).
  - reflexivity.
  - vm_compute. reflexivity.
Defined.

Lemma midiNoteOf_without_overflow_witness :
  0 <= @octaveOf CLocale (note "A4foo2") < 10 ^ 8 /\
  @midiNoteOf CLocale (note "A4foo2") =
  @octaveOf CLocale (note "A4foo2") * 12 + @pitchClassOf CLocale (note "A4foo2").
Proof.
  apply (midiNoteOf_without_overflow (note "A4foo2")).
  vm_compute. lia.
Defined.

Lemma octaveOf_app_witness :
  @octaveOf CLocale (note "A4" ++ note "foo2") =
  @octaveOf CLocale (note "A4") * 10 ^ 1 + @octaveOf CLocale (note "foo2").
Proof.
  apply (octaveOf_app (note "A4") (note "foo2")).
  vm_compute. lia.
Defined.

(* ================================================================== *)
(** ** Names of the MIDI notes from 0 on *)

Section NamesFromZero.

Context {D : Double} {AU : AudioUtility D}.

#[local] Existing Instance CLocale.

Lemma getNoteName_no_minus (pitchClass : Z) : ~ In (ch "-") (getNoteName pitchClass).
Proof.
  destruct (Z.le_gt_cases 0 pitchClass) as [H0 |];
    [destruct (Z.le_gt_cases pitchClass 11) as [H11 |] |];
    try (rewrite getNoteName_out_of_range by lia; intros []).
  assert (H : 0 <= pitchClass <= 11) by lia.
  each_pitch_class H; cbn; intuition discriminate.
Qed.

Lemma nameOfMidiInt_minus_low (m : Z) :
  0 <= m < 12 -> In (ch "-") (nameOfMidiInt m).
Proof.
  intros Hm. assert (H : 0 <= m <= 11) by lia.
  each_pitch_class H; cbn; tauto.
Qed.

Lemma nameOfMidiInt_no_minus (m : Z) :
  12 <= m < 2 ^ 31 -> ~ In (ch "-") (nameOfMidiInt m).
Proof.
  intros Hm Hin. rewrite nameOfMidiInt_parts in Hin.
  apply in_app_or in Hin. destruct Hin as [Hin | Hin].
  - exact (getNoteName_no_minus _ Hin).
  - rewrite octave_of_midi in Hin by lia.
    assert (1 <= m / 12) by (apply Z.div_le_lower_bound; lia).
    destruct (written_number_digits (m / 12 - 1) ltac:(lia)) as [d [Hd _]].
    rewrite Hd in Hin.
    pose proof (string_of_uint_digits d) as Hdigits.
    rewrite Forall_forall in Hdigits. specialize (Hdigits _ Hin).
    destruct (digit_not_space_nor_minus _ Hdigits) as [_ Hminus].
    discriminate Hminus.
Qed.

(** X13. From MIDI note 0 on the name has both parts: for a pitch whose
    truncated MIDI note [m] is in [0, 2^31), the name is the table entry of
    [m mod 12], which is not empty, followed by the number [m / 12 - 1],
    which is -1 at least. *)
Theorem getMidiNoteName_split (p : Pitch) :
  0 <= toInt (getMidiNote p) < 2 ^ 31 ->
  getMidiNoteName p =
  getNoteName (toInt (getMidiNote p) mod 12) ++
  juce.appendInt juce.empty (toInt (getMidiNote p) / 12 - 1) /\
  getNoteName (toInt (getMidiNote p) mod 12) <> juce.empty /\
  -1 <= toInt (getMidiNote p) / 12 - 1.
Proof.
  intros Hm. rewrite getMidiNoteName_nameOfMidiInt, nameOfMidiInt_parts.
  set (m := toInt (getMidiNote p)) in *.
  rewrite octave_of_midi by lia.
  unfold Int.rem. rewrite Z.rem_mod_nonneg by lia.
  split; [reflexivity |].
  split.
  - pose proof (Z.mod_pos_bound m 12 ltac:(lia)) as Hpc.
    assert (H : 0 <= m mod 12 <= 11) by lia.
    generalize dependent (m mod 12). intros pitchClass _ H.
    each_pitch_class H; discriminate.
  - assert (0 <= m / 12) by (apply Z.div_pos; lia). lia.
Qed.

(** X14. From MIDI note 0 on, different notes have different names: two pitches
    whose truncated MIDI notes are in [0, 2^31) and whose names are equal have
    the same truncated MIDI note. *)
Theorem getMidiNoteName_injective (p q : Pitch) :
  0 <= toInt (getMidiNote p) < 2 ^ 31 ->
  0 <= toInt (getMidiNote q) < 2 ^ 31 ->
  getMidiNoteName p = getMidiNoteName q ->
  toInt (getMidiNote p) = toInt (getMidiNote q).
Proof.
  rewrite !getMidiNoteName_nameOfMidiInt.
  generalize (toInt (getMidiNote p)) (toInt (getMidiNote q)).
  intros m m' Hm Hm' Hname.
  assert (Hpc : m mod 12 = m' mod 12).
  { rewrite <- (pitchClassOf_nameOfMidiInt m), <- (pitchClassOf_nameOfMidiInt m') by lia.
    rewrite Hname. reflexivity. }
  pose proof (Z.div_mod m 12 ltac:(lia)) as Hdiv.
  pose proof (Z.div_mod m' 12 ltac:(lia)) as Hdiv'.
  destruct (Z.lt_ge_cases m 12) as [Hlow | Hhigh];
    destruct (Z.lt_ge_cases m' 12) as [Hlow' | Hhigh'].
  - rewrite !Z.mod_small in Hpc by lia. exact Hpc.
  - exfalso. apply (nameOfMidiInt_no_minus m' ltac:(lia)).
    rewrite <- Hname. apply nameOfMidiInt_minus_low. lia.
  - exfalso. apply (nameOfMidiInt_no_minus m ltac:(lia)).
    rewrite Hname. apply nameOfMidiInt_minus_low. lia.
  - assert (Hoct : m / 12 - 1 = m' / 12 - 1).
    { rewrite <- (octaveOf_nameOfMidiInt m), <- (octaveOf_nameOfMidiInt m') by lia.
      rewrite Hname. reflexivity. }
    lia.
Qed.

End NamesFromZero.

Lemma getMidiNoteName_split_witness :
  @getMidiNoteName RDouble RAudioUtility
    (@fromMidiNote RDouble RAudioUtility (IZR 60)) = note "C4".
Proof.
  destruct (@getMidiNoteName_split RDouble RAudioUtility
              (@fromMidiNote RDouble RAudioUtility (IZR 60))) as [Hname _].
  - rewrite toInt_getMidiNote_exact. lia.
  - rewrite Hname, toInt_getMidiNote_exact. reflexivity.
Defined.

Lemma toInt_getMidiNote_60_5 :
  @toInt RDouble
    (@getMidiNote RDouble RAudioUtility
       (@fromMidiNote RDouble RAudioUtility 60.5%R)) = 60.
Proof.
  rewrite getMidiNote_fromMidiNote.
  change (Rtruncate 60.5 = 60). unfold Rtruncate.
  destruct (Rle_dec 0 60.5) as [_ | Hneg]; [| exfalso; apply Hneg; lra].
  symmetry. apply Int_part_spec. lra.
Qed.

Lemma getMidiNoteName_injective_witness :
  @getMidiNoteName RDouble RAudioUtility
    (@fromMidiNote RDouble RAudioUtility (IZR 60)) =
  @getMidiNoteName RDouble RAudioUtility
    (@fromMidiNote RDouble RAudioUtility 60.5%R) /\
  @toInt RDouble
    (@getMidiNote RDouble RAudioUtility
       (@fromMidiNote RDouble RAudioUtility (IZR 60))) =
  @toInt RDouble
    (@getMidiNote RDouble RAudioUtility
       (@fromMidiNote RDouble RAudioUtility 60.5%R)).
Proof.
  assert (Hname : @getMidiNoteName RDouble RAudioUtility
                    (@fromMidiNote RDouble RAudioUtility (IZR 60)) =
                  @getMidiNoteName RDouble RAudioUtility
                    (@fromMidiNote RDouble RAudioUtility 60.5%R)).
  { rewrite !getMidiNoteName_nameOfMidiInt.
    rewrite toInt_getMidiNote_exact, toInt_getMidiNote_60_5. reflexivity. }
  split; [exact Hname |].
  apply (@getMidiNoteName_injective RDouble RAudioUtility).
  - rewrite toInt_getMidiNote_exact. lia.
  - rewrite toInt_getMidiNote_60_5. lia.
  - exact Hname.
Defined.
